(** * Contacts API: repository and route layer, embedded and verified

    Shallow embedding of
      - [src/database/models.py]      (tables [users] and [contacts]),
      - [src/repository/contacts.py]  (owner-scoped CRUD, search, birthdays),
      - [src/repository/users.py]     (lookup by email, refresh-token update),
      - [src/routes/contacts.py] and [src/routes/auth.py] (HTTP handlers).

    A database session is a record of the two tables, each a list of rows
    in storage order, plus the serial counter that feeds [contacts.id].
    SQL expressions are evaluated with SQL's own rules: a comparison with
    NULL is not true, [ILIKE] reads [%], [_] and the backslash of its
    pattern as metacharacters, and naming a second table in a filter joins
    it.  [db.commit()] is the point where pending row changes reach the
    tables, or where the database refuses them: the primary key, the
    unique [contacts.email] and the foreign key to [users] are checked
    there, and a refused commit raises [IntegrityError] and writes no
    row. *)

From Stdlib Require Import ZArith List String Ascii Bool Lia Permutation.
Import ListNotations.
Open Scope Z_scope.

(* ================================================================== *)
(** * Calendar dates                                                   *)
(* ================================================================== *)

(** [datetime.date]: proleptic Gregorian calendar.  [add_days] is
    [d + timedelta(days=n)] for a non-negative [n]. *)
Module date.

Record t := mk { year : Z; month : Z; day : Z }.

Definition is_leap (y : Z) : bool :=
  ((y mod 4 =? 0) && negb (y mod 100 =? 0)) || (y mod 400 =? 0).

Definition days_in_month (y m : Z) : Z :=
  if m =? 2 then (if is_leap y then 29 else 28)
  else if (m =? 4) || (m =? 6) || (m =? 9) || (m =? 11) then 30
  else 31.

Definition valid (d : t) : Prop :=
  1 <= month d <= 12 /\ 1 <= day d <= days_in_month (year d) (month d).

Definition tomorrow (d : t) : t :=
  if day d <? days_in_month (year d) (month d)
  then mk (year d) (month d) (day d + 1)
  else if month d <? 12
       then mk (year d) (month d + 1) 1
       else mk (year d + 1) 1 1.

Definition add_days (d : t) (n : nat) : t := Nat.iter n tomorrow d.

End date.

(* ================================================================== *)
(** * Text: case folding and SQL pattern matching                      *)
(* ================================================================== *)

Definition text := list ascii.

Definition is_upper (a : ascii) : bool :=
  ((65 <=? nat_of_ascii a) && (nat_of_ascii a <=? 90))%nat.

(** Case folding of the ASCII letters; every other byte stays.  On ASCII
    text this is the folding ILIKE applies, and the statements about
    matching say where they rely on it. *)
Definition lower_ascii (a : ascii) : ascii :=
  if is_upper a then ascii_of_nat (nat_of_ascii a + 32) else a.

Definition lower (s : text) : text := map lower_ascii s.

(** The three characters a LIKE pattern does not take literally. *)
Definition is_meta (a : ascii) : bool :=
  Ascii.eqb a "%" || Ascii.eqb a "_" || Ascii.eqb a "\".

Definition no_meta (q : text) : bool := forallb (fun a => negb (is_meta a)) q.

(** [any_suffix f s]: [f] accepts [s] or one of its proper suffixes. *)
Fixpoint any_suffix (f : text -> bool) (s : text) : bool :=
  f s || match s with
         | [] => false
         | _ :: s' => any_suffix f s'
         end.

(** [like p s]: the SQL predicate [s LIKE p].  [%] stands for any run of
    characters, [_] for exactly one, a backslash takes the next pattern
    character literally (a pattern ending in a lone backslash matches
    nothing).  A character is one element of the text, which is one
    character of ASCII text. *)
Fixpoint like (p : text) (s : text) {struct p} : bool :=
  match p with
  | [] => match s with [] => true | _ :: _ => false end
  | c :: p' =>
      if Ascii.eqb c "%" then any_suffix (like p') s
      else if Ascii.eqb c "_" then
        match s with [] => false | _ :: s' => like p' s' end
      else if Ascii.eqb c "\" then
        match p' with
        | [] => false
        | e :: p'' =>
            match s with
            | [] => false
            | a :: s' => Ascii.eqb e a && like p'' s'
            end
        end
      else
        match s with
        | [] => false
        | a :: s' => Ascii.eqb c a && like p' s'
        end
  end.

(** [column.ilike(pattern)]: case-insensitive LIKE; a NULL column makes
    the predicate NULL, which a filter does not accept. *)
Definition ilike (column : option string) (pattern : text) : bool :=
  match column with
  | None => false
  | Some s => like (lower pattern) (lower (list_ascii_of_string s))
  end.

(** [f"%{q}%"] *)
Definition percent_wrap (q : string) : text :=
  "%"%char :: list_ascii_of_string q ++ ["%"%char].

(** Substring test, the reading of "contains" used in statements. *)
Fixpoint prefixb (q s : text) : bool :=
  match q, s with
  | [], _ => true
  | _ :: _, [] => false
  | a :: q', b :: s' => Ascii.eqb a b && prefixb q' s'
  end.

Definition containsb (q s : text) : bool := any_suffix (prefixb q) s.

(** Case-insensitive containment of a query string in a column value. *)
Definition icontains (column : option string) (q : string) : bool :=
  match column with
  | None => false
  | Some s => containsb (lower (list_ascii_of_string q))
                        (lower (list_ascii_of_string s))
  end.

(* ================================================================== *)
(** * Data model ([src/database/models.py])                            *)
(* ================================================================== *)

(** A nullable column is an [option]; [None] is SQL NULL. *)

Module Contact.

(** Table [contacts].  [birthday] keeps the calendar date of the
    [DateTime] column: the queries read only its month and day. *)
Record t := mk {
  id : Z;
  first_name : option string;
  last_name : option string;
  email : option string;
  phone_number : option string;
  birthday : option date.t;
  additional_data : option string;
  user_id : option Z
}.

End Contact.

Module User.

(** Table [users].  [confirmed] is the truth value Python gives the
    column ([default=False]). *)
Record t := mk {
  id : Z;
  username : option string;
  email : string;
  password : string;
  refresh_token : option string;
  confirmed : bool;
  avatar : option string
}.

Definition set_refresh_token (u : t) (token : option string) : t :=
  mk (id u) (username u) (email u) (password u) token (confirmed u)
     (avatar u).

Definition set_confirmed (u : t) (value : bool) : t :=
  mk (id u) (username u) (email u) (password u) (refresh_token u) value
     (avatar u).

Definition set_avatar (u : t) (url : option string) : t :=
  mk (id u) (username u) (email u) (password u) (refresh_token u)
     (confirmed u) url.

End User.

(** The database behind a [Session]: both tables in storage order and the
    next value of the serial that generates [contacts.id]. *)
Record Session := mkSession {
  users : list User.t;
  contacts : list Contact.t;
  contacts_id_seq : Z
}.

(** [query.first()] *)
Definition first {A : Type} (rows : list A) : option A :=
  match rows with
  | [] => None
  | r :: _ => Some r
  end.

(** [column == value] in a filter: NULL never compares equal. *)
Definition sql_eq (column : option Z) (value : Z) : bool :=
  match column with
  | None => false
  | Some x => x =? value
  end.

(** [SELECT a.* FROM a, b WHERE on a b]: the rows of [a], once for every
    row of [b] the condition pairs them with. *)
Definition select_join {A B : Type} (on : A -> B -> bool)
    (a : list A) (b : list B) : list A :=
  flat_map (fun x => flat_map (fun y => if on x y then [x] else []) b) a.

(* ================================================================== *)
(** * Request payloads ([src/schemas.py])                              *)
(* ================================================================== *)

(** Values a validated payload carries. *)
Inductive pyval :=
| PyNone
| PyStr (s : string)
| PyDate (d : date.t).

Definition of_str (v : option string) : pyval :=
  match v with None => PyNone | Some s => PyStr s end.

Definition of_date (v : option date.t) : pyval :=
  match v with None => PyNone | Some d => PyDate d end.

(** Modelled from the spec: the pydantic schema [ContactCreate] of
    [src/schemas.py], which is not among the sources.  Its fields are the
    contact's data columns (spec section 3; the unit tests build it from
    [first_name], [last_name], [email], [phone_number]). *)
Module ContactCreate.
Record t := mk {
  first_name : option string;
  last_name : option string;
  email : option string;
  phone_number : option string;
  birthday : option date.t;
  additional_data : option string
}.
End ContactCreate.

(** Modelled from the spec: the pydantic schema [ContactUpdate] of
    [src/schemas.py], which is not among the sources; same fields as
    [ContactCreate].  [dict] is [body.dict().items()], in declaration
    order. *)
Module ContactUpdate.
Record t := mk {
  first_name : option string;
  last_name : option string;
  email : option string;
  phone_number : option string;
  birthday : option date.t;
  additional_data : option string
}.

Definition dict (body : t) : list (string * pyval) :=
  [ ("first_name"%string, of_str (first_name body));
    ("last_name"%string, of_str (last_name body));
    ("email"%string, of_str (email body));
    ("phone_number"%string, of_str (phone_number body));
    ("birthday"%string, of_date (birthday body));
    ("additional_data"%string, of_str (additional_data body)) ].
End ContactUpdate.

(** Modelled from the spec: the pydantic schema [UserModel] of
    [src/schemas.py], which is not among the sources; the signup body
    carries a username, an email and a password (spec section 6). *)
Module UserModel.
Record t := mk {
  username : string;
  email : string;
  password : string
}.
End UserModel.

(** Reading a payload value into a text or a date column. *)
Definition as_str (v : pyval) : option (option string) :=
  match v with
  | PyNone => Some None
  | PyStr s => Some (Some s)
  | PyDate _ => None
  end.

Definition as_date (v : pyval) : option (option date.t) :=
  match v with
  | PyNone => Some None
  | PyDate d => Some (Some d)
  | PyStr _ => None
  end.

(** [setattr(contact, field, value)] on a mapped [Contact].  A column
    attribute takes the value; a name that is no data column of the
    mapping only decorates the Python object and is no part of the row.
    A validated payload never pairs a column with a value of the other
    type; such a pair leaves the row as it is. *)
Definition setattr (c : Contact.t) (field : string) (value : pyval)
    : Contact.t :=
  let text_column (put : option string -> Contact.t) :=
    match as_str value with Some v => put v | None => c end in
  let '(Contact.mk i fn ln em ph bd ad uid) := c in
  if String.eqb field "first_name" then
    text_column (fun v => Contact.mk i v ln em ph bd ad uid)
  else if String.eqb field "last_name" then
    text_column (fun v => Contact.mk i fn v em ph bd ad uid)
  else if String.eqb field "email" then
    text_column (fun v => Contact.mk i fn ln v ph bd ad uid)
  else if String.eqb field "phone_number" then
    text_column (fun v => Contact.mk i fn ln em v bd ad uid)
  else if String.eqb field "birthday" then
    match as_date value with
    | Some v => Contact.mk i fn ln em ph v ad uid
    | None => c
    end
  else if String.eqb field "additional_data" then
    text_column (fun v => Contact.mk i fn ln em ph bd v uid)
  else c.

(** [getattr(contact, field)] for the data columns, as a payload value. *)
Definition getattr (c : Contact.t) (field : string) : option pyval :=
  if String.eqb field "first_name" then Some (of_str (Contact.first_name c))
  else if String.eqb field "last_name" then Some (of_str (Contact.last_name c))
  else if String.eqb field "email" then Some (of_str (Contact.email c))
  else if String.eqb field "phone_number" then
    Some (of_str (Contact.phone_number c))
  else if String.eqb field "birthday" then Some (of_date (Contact.birthday c))
  else if String.eqb field "additional_data" then
    Some (of_str (Contact.additional_data c))
  else None.

(* ================================================================== *)
(** * Repository: contacts ([src/repository/contacts.py])              *)
(* ================================================================== *)

(** What a repository call that commits comes to: the value it returns,
    or the [IntegrityError] that [db.commit()] raises when the database
    refuses the write. *)
Inductive committed (A : Type) :=
| Ok (value : A)
| IntegrityError.

Arguments Ok {A} value.
Arguments IntegrityError {A}.

(** The constraints [models.py] declares on [contacts].  [id] is the
    primary key; [email] is unique, two NULLs not colliding; a non-NULL
    [user_id] must be the [id] of a row of [users]. *)
Definition key_held (i : Z) (rows : list Contact.t) : bool :=
  existsb (fun r => Contact.id r =? i) rows.

Definition email_held (email : option string) (rows : list Contact.t)
    : bool :=
  match email with
  | None => false
  | Some e =>
      existsb (fun r => match Contact.email r with
                        | Some e' => String.eqb e' e
                        | None => false
                        end) rows
  end.

Definition user_stored (user_id : option Z) (rows : list User.t) : bool :=
  match user_id with
  | None => true
  | Some i => existsb (fun u => User.id u =? i) rows
  end.

(** The rows whose key is not [i]. *)
Definition others (i : Z) (rows : list Contact.t) : list Contact.t :=
  filter (fun r => negb (Contact.id r =? i)) rows.

Module repository_contacts.

(** [Contact.id == contact_id, Contact.user_id == user.id] *)
Definition owned_row (contact_id : Z) (user : User.t) (c : Contact.t)
    : bool :=
  (Contact.id c =? contact_id) && sql_eq (Contact.user_id c) (User.id user).

(** [.filter(Contact.user_id == user.id).offset(skip).limit(limit).all()];
    the two counts are naturals, the database refusing negative ones. *)
Definition get_contacts (skip limit : nat) (user : User.t) (db : Session)
    : list Contact.t :=
  firstn limit
         (skipn skip
                (filter (fun c => sql_eq (Contact.user_id c) (User.id user))
                        (contacts db))).

Definition get_contact (contact_id : Z) (user : User.t) (db : Session)
    : option Contact.t :=
  first (filter (owned_row contact_id user) (contacts db)).

(** [db.add(contact); db.commit(); db.refresh(contact)]: the row is
    appended with the next value of the serial as its [id], unless a
    constraint refuses it.  The serial moves on either way: a value drawn
    from a sequence is not given back. *)
Definition create_contact (body : ContactCreate.t) (user : User.t)
    (db : Session) : committed Contact.t * Session :=
  let contact :=
    Contact.mk (contacts_id_seq db)
               (ContactCreate.first_name body)
               (ContactCreate.last_name body)
               (ContactCreate.email body)
               (ContactCreate.phone_number body)
               (ContactCreate.birthday body)
               (ContactCreate.additional_data body)
               (Some (User.id user)) in
  if key_held (Contact.id contact) (contacts db)
     || email_held (Contact.email contact) (contacts db)
     || negb (user_stored (Contact.user_id contact) (users db))
  then (IntegrityError,
        mkSession (users db) (contacts db) (contacts_id_seq db + 1))
  else (Ok contact,
        mkSession (users db) (contacts db ++ [contact])
                  (contacts_id_seq db + 1)).

(** [db.delete(contact); db.commit()]:
    [DELETE FROM contacts WHERE id = contact.id]. *)
Definition delete (contact : Contact.t) (db : Session) : Session :=
  mkSession (users db)
            (filter (fun r => negb (Contact.id r =? Contact.id contact))
                    (contacts db))
            (contacts_id_seq db).

Definition remove_contact (contact_id : Z) (user : User.t) (db : Session)
    : option Contact.t * Session :=
  match first (filter (owned_row contact_id user) (contacts db)) with
  | Some contact => (Some contact, delete contact db)
  | None => (None, db)
  end.

(** The data columns of [contact] written into [row]. *)
Definition write_columns (contact row : Contact.t) : Contact.t :=
  Contact.mk (Contact.id row)
             (Contact.first_name contact) (Contact.last_name contact)
             (Contact.email contact) (Contact.phone_number contact)
             (Contact.birthday contact) (Contact.additional_data contact)
             (Contact.user_id row).

(** [db.commit()] after attribute assignments on [contact]:
    [UPDATE contacts SET ... WHERE id = contact.id].  The database
    refuses the update ([None]) when another row holds the new email;
    otherwise the new version of the row is stored behind the rows that
    were not touched, which is where a later query lists it. *)
Definition commit_update (contact : Contact.t) (db : Session)
    : option Session :=
  if email_held (Contact.email contact)
                (others (Contact.id contact) (contacts db))
  then None
  else
    Some (mkSession
            (users db)
            (others (Contact.id contact) (contacts db)
             ++ map (write_columns contact)
                    (filter (fun r => Contact.id r =? Contact.id contact)
                            (contacts db)))
            (contacts_id_seq db)).

(** [for field, value in body.dict().items(): setattr(contact, field, value)] *)
Definition assign_all (items : list (string * pyval)) (contact : Contact.t)
    : Contact.t :=
  fold_left (fun c item => setattr c (fst item) (snd item)) items contact.

Definition update_contact (contact_id : Z) (body : ContactUpdate.t)
    (user : User.t) (db : Session)
    : committed (option Contact.t) * Session :=
  match first (filter (owned_row contact_id user) (contacts db)) with
  | Some contact =>
      let contact := assign_all (ContactUpdate.dict body) contact in
      match commit_update contact db with
      | Some db' => (Ok (Some contact), db')
      | None => (IntegrityError, db)
      end
  | None => (Ok None, db)
  end.

(** The filter of [search_contacts].  Its last conjunct compares with
    the column [User.id] of the mapped class, not with a user's id, so
    the statement selects from [contacts, users]. *)
Definition search_filter (first_name last_name email : string)
    (c : Contact.t) (u : User.t) : bool :=
  ilike (Contact.first_name c) (percent_wrap first_name)
  && ilike (Contact.last_name c) (percent_wrap last_name)
  && ilike (Contact.email c) (percent_wrap email)
  && sql_eq (Contact.user_id c) (User.id u).

Definition search_contacts (db : Session)
    (first_name last_name email : string) : list Contact.t :=
  select_join (search_filter first_name last_name email)
              (contacts db) (users db).

(** [func.date_part(part, Contact.birthday) <cmp> func.date_part(part, d)]
    on a nullable column. *)
Definition date_part_cmp (part : date.t -> Z) (cmp : Z -> Z -> bool)
    (column : option date.t) (d : date.t) : bool :=
  match column with
  | None => false
  | Some b => cmp (part b) (part d)
  end.

(** The filter of [get_contacts_upcoming_birthdays].  Its first conjunct,
    [Contact.birthday is not None], is the Python constant [True]; the
    last one joins [users] as in [search_filter]. *)
Definition birthday_filter (today next_week : date.t)
    (c : Contact.t) (u : User.t) : bool :=
  true
  && date_part_cmp date.month Z.eqb (Contact.birthday c) today
  && date_part_cmp date.day Z.geb (Contact.birthday c) today
  && date_part_cmp date.day Z.leb (Contact.birthday c) next_week
  && sql_eq (Contact.user_id c) (User.id u).

(** [today] is [datetime.now().date()], read from the clock by the
    source and passed in here. *)
Definition get_contacts_upcoming_birthdays (today : date.t) (db : Session)
    : list Contact.t :=
  let next_week := date.add_days today 7 in
  select_join (birthday_filter today next_week) (contacts db) (users db).

End repository_contacts.

(* ================================================================== *)
(** * Repository: users ([src/repository/users.py])                    *)
(* ================================================================== *)

Module repository_users.

Definition get_user_by_email (email : string) (db : Session)
    : option User.t :=
  first (filter (fun u => String.eqb (User.email u) email) (users db)).

(** [user.refresh_token = token; db.commit()]:
    [UPDATE users SET refresh_token = ... WHERE id = user.id]. *)
Definition update_token (user : User.t) (token : option string)
    (db : Session) : Session :=
  mkSession (map (fun r => if User.id r =? User.id user
                           then User.set_refresh_token r token else r)
                 (users db))
            (contacts db)
            (contacts_id_seq db).

(** A [User] built from the fields of [body.dict()], then
    [db.add(new_user); db.commit(); db.refresh(new_user)].  [new_id] is
    the key the database gives the row; the other columns take their
    defaults (no refresh token, not confirmed, no avatar). *)
Definition create_user (body : UserModel.t) (new_id : Z) (db : Session)
    : User.t * Session :=
  let new_user :=
    User.mk new_id (Some (UserModel.username body)) (UserModel.email body)
            (UserModel.password body) None false None in
  (new_user,
   mkSession (users db ++ [new_user]) (contacts db) (contacts_id_seq db)).

(** [user.confirmed = True; db.commit()] on the user found by email:
    [UPDATE users SET confirmed = true WHERE id = user.id].  With no such
    user the assignment is made on [None] and raises ([None] here). *)
Definition confirmed_email (email : string) (db : Session)
    : option Session :=
  match get_user_by_email email db with
  | None => None
  | Some user =>
      Some (mkSession
              (map (fun r => if User.id r =? User.id user
                             then User.set_confirmed r true else r)
                   (users db))
              (contacts db)
              (contacts_id_seq db))
  end.

(** [user.avatar = url; db.commit(); return user], raising on an unknown
    email like [confirmed_email]. *)
Definition update_avatar (email : string) (url : string) (db : Session)
    : option (User.t * Session) :=
  match get_user_by_email email db with
  | None => None
  | Some user =>
      Some (User.set_avatar user (Some url),
            mkSession
              (map (fun r => if User.id r =? User.id user
                             then User.set_avatar r (Some url) else r)
                   (users db))
              (contacts db)
              (contacts_id_seq db))
  end.

End repository_users.

(* ================================================================== *)
(** * Route layer                                                      *)
(* ================================================================== *)

(** What a handler call comes to: a returned body, a raised
    [HTTPException], or another Python exception that nothing catches
    (the server answers 500). *)
Inductive outcome (A : Type) :=
| Return (body : A)
| HTTPException (status_code : Z) (detail : string)
| Raised (exception : string).

Arguments Return {A} body.
Arguments HTTPException {A} status_code detail.
Arguments Raised {A} exception.

Definition bind {A B : Type} (o : outcome A) (k : A -> outcome B)
    : outcome B :=
  match o with
  | Return a => k a
  | HTTPException s d => HTTPException s d
  | Raised e => Raised e
  end.

Notation "x <- e ;; k" := (bind e (fun x => k))
  (at level 61, e at next level, right associativity).

(** Status line of the response, [ok] being the route's success code. *)
Definition status_code {A : Type} (ok : Z) (o : outcome A) : Z :=
  match o with
  | Return _ => ok
  | HTTPException s _ => s
  | Raised _ => 500
  end.

Definition HTTP_200_OK : Z := 200.
Definition HTTP_401_UNAUTHORIZED : Z := 401.
Definition HTTP_404_NOT_FOUND : Z := 404.
Definition HTTP_400_BAD_REQUEST : Z := 400.
Definition HTTP_409_CONFLICT : Z := 409.

(** The request as the dependencies see it. *)
Record Request := mkRequest {
  authorization : option string;   (* bearer token, when the header is there *)
  base_url : string
}.

(** Modelled from the spec: [auth_service] of [src/services/auth.py],
    which is not among the sources (spec section 4.3).  Tokens carry the
    user's email as subject; decoding and the current-user dependency
    either yield their result or raise. *)
Record AuthService := mkAuthService {
  verify_password : string -> string -> bool;
  create_access_token : string -> string;
  create_refresh_token : string -> string;
  decode_refresh_token : string -> outcome string;
  get_current_user : Request -> Session -> outcome User.t
}.

(** [TokenModel], the response body of login and refresh. *)
Module TokenModel.
Record t := mk {
  access_token : string;
  refresh_token : string;
  token_type : string
}.
End TokenModel.

(** [src/routes/auth.py] *)
Module routes_auth.

(** A task handed to [BackgroundTasks.add_task]. *)
Inductive task :=
| send_email (email : string) (username : option string) (base : string).

Section handlers.

Variable auth_service : AuthService.

(** [POST /auth/login]; [username] and [password] are the form fields. *)
Definition login (username password : string) (db : Session)
    : outcome TokenModel.t * Session :=
  match repository_users.get_user_by_email username db with
  | None => (HTTPException HTTP_401_UNAUTHORIZED "Invalid email", db)
  | Some user =>
      if negb (User.confirmed user) then
        (HTTPException HTTP_401_UNAUTHORIZED "Email not confirmed", db)
      else if negb (verify_password auth_service password
                                    (User.password user)) then
        (HTTPException HTTP_401_UNAUTHORIZED "Invalid password", db)
      else
        let access := create_access_token auth_service (User.email user) in
        let refresh :=
          create_refresh_token auth_service (User.email user) in
        (Return (TokenModel.mk access refresh "bearer"),
         repository_users.update_token user (Some refresh) db)
  end.

(** [user.refresh_token != token] *)
Definition token_differs (stored : option string) (token : string)
    : bool :=
  match stored with
  | None => true
  | Some s => negb (String.eqb s token)
  end.

(** [GET /auth/refresh_token]; [token] is [credentials.credentials]. *)
Definition refresh_token (token : string) (db : Session)
    : outcome TokenModel.t * Session :=
  match decode_refresh_token auth_service token with
  | HTTPException s d => (HTTPException s d, db)
  | Raised e => (Raised e, db)
  | Return email =>
      match repository_users.get_user_by_email email db with
      | None => (Raised "AttributeError", db)
      | Some user =>
          if token_differs (User.refresh_token user) token then
            (HTTPException HTTP_401_UNAUTHORIZED "Invalid refresh token",
             repository_users.update_token user None db)
          else
            let access := create_access_token auth_service email in
            let refresh := create_refresh_token auth_service email in
            (Return (TokenModel.mk access refresh "bearer"),
             repository_users.update_token user (Some refresh) db)
      end
  end.

End handlers.

(** [POST /auth/request_email].  The handler reads [user.confirmed]
    before it tests [user]; on [None] that read raises.  The second
    component lists the background tasks added. *)
Definition request_email (email : string) (request : Request)
    (db : Session) : outcome string * list task :=
  let user := repository_users.get_user_by_email email db in
  match option_map User.confirmed user with
  | None => (Raised "AttributeError", [])
  | Some true => (Return "Your email is already confirmed"%string, [])
  | Some false =>
      let background_tasks :=
        match user with
        | Some u => [send_email (User.email u) (User.username u)
                                (base_url request)]
        | None => []
        end in
      (Return "Check your email for confirmation."%string,
       background_tasks)
  end.

Section account_handlers.

(** Modelled from the spec: two more methods of [auth_service]
    ([src/services/auth.py], not among the sources): the password hash
    and the decoding of an email-confirmation token, which yields the
    email or raises (spec section 4.3). *)
Variable get_password_hash : string -> string.
Variable get_email_from_token : string -> outcome string.

(** [POST /auth/signup].  [new_id] is the key the database gives a new
    row.  The result lists the response, the database and the background
    tasks added. *)
Definition signup (body : UserModel.t) (request : Request) (new_id : Z)
    (db : Session) : outcome (User.t * string) * Session * list task :=
  match repository_users.get_user_by_email (UserModel.email body) db with
  | Some exist_user =>
      (HTTPException HTTP_409_CONFLICT "Account already exists", db, [])
  | None =>
      let body :=
        UserModel.mk (UserModel.username body) (UserModel.email body)
                     (get_password_hash (UserModel.password body)) in
      let (new_user, db') := repository_users.create_user body new_id db in
      (Return (new_user,
               "User successfully created. Check your email for confirmation."%string),
       db',
       [send_email (User.email new_user) (User.username new_user)
                   (base_url request)])
  end.

(** [GET /auth/confirmed_email/{token}] *)
Definition confirmed_email (token : string) (db : Session)
    : outcome string * Session :=
  match get_email_from_token token with
  | HTTPException s d => (HTTPException s d, db)
  | Raised e => (Raised e, db)
  | Return email =>
      match repository_users.get_user_by_email email db with
      | None =>
          (HTTPException HTTP_400_BAD_REQUEST "Verification error", db)
      | Some user =>
          if User.confirmed user then
            (Return "Your email is already confirmed"%string, db)
          else
            match repository_users.confirmed_email email db with
            | None => (Raised "AttributeError", db)
            | Some db' => (Return "Email confirmed"%string, db')
            end
      end
  end.

End account_handlers.

End routes_auth.

(** [src/routes/contacts.py].  The [RateLimiter] dependency of some of
    the routes runs ahead of the handler's own dependencies and can only
    refuse a request; it stays outside the embedding. *)
Module routes_contacts.

Section handlers.

Variable auth_service : AuthService.

(** [Depends(auth_service.get_current_user)] *)
Definition current_user (request : Request) (db : Session)
    : outcome User.t :=
  get_current_user auth_service request db.

Definition not_found : outcome Contact.t :=
  HTTPException HTTP_404_NOT_FOUND "Contact not found".

(** [GET /contacts/] *)
Definition read_contacts (request : Request) (skip limit : nat)
    (db : Session) : outcome (list Contact.t) * Session :=
  (user <- current_user request db ;;
   Return (repository_contacts.get_contacts skip limit user db),
   db).

(** [GET /contacts/{contact_id}] *)
Definition read_contact (request : Request) (contact_id : Z)
    (db : Session) : outcome Contact.t * Session :=
  (user <- current_user request db ;;
   match repository_contacts.get_contact contact_id user db with
   | None => not_found
   | Some contact => Return contact
   end,
   db).

(** [POST /contacts/] *)
Definition create_contact (request : Request) (body : ContactCreate.t)
    (db : Session) : outcome Contact.t * Session :=
  match current_user request db with
  | Return user =>
      match repository_contacts.create_contact body user db with
      | (Ok contact, db') => (Return contact, db')
      | (IntegrityError, db') => (Raised "IntegrityError", db')
      end
  | HTTPException s d => (HTTPException s d, db)
  | Raised e => (Raised e, db)
  end.

(** [PUT /contacts/{contact_id}] *)
Definition update_contact (request : Request) (body : ContactUpdate.t)
    (contact_id : Z) (db : Session) : outcome Contact.t * Session :=
  match current_user request db with
  | Return user =>
      match repository_contacts.update_contact contact_id body user db
      with
      | (Ok None, db') => (not_found, db')
      | (Ok (Some contact), db') => (Return contact, db')
      | (IntegrityError, db') => (Raised "IntegrityError", db')
      end
  | HTTPException s d => (HTTPException s d, db)
  | Raised e => (Raised e, db)
  end.

(** [DELETE /contacts/{contact_id}] *)
Definition remove_contact (request : Request) (contact_id : Z)
    (db : Session) : outcome Contact.t * Session :=
  match current_user request db with
  | Return user =>
      match repository_contacts.remove_contact contact_id user db with
      | (None, db') => (not_found, db')
      | (Some contact, db') => (Return contact, db')
      end
  | HTTPException s d => (HTTPException s d, db)
  | Raised e => (Raised e, db)
  end.

End handlers.

(** [GET /contacts/search/]: its only dependency is [get_db], and
    [main.py] mounts the router without adding one. *)
Definition search_contacts_api (request : Request)
    (first_name last_name email : string) (db : Session)
    : outcome (list Contact.t) :=
  Return (repository_contacts.search_contacts db first_name last_name
                                              email).

(** [GET /contacts/upcoming-birthdays/]: its only dependency is
    [get_db]. *)
Definition get_upcoming_birthdays (request : Request) (today : date.t)
    (db : Session) : outcome (list Contact.t) :=
  Return (repository_contacts.get_contacts_upcoming_birthdays today db).

End routes_contacts.

(* ================================================================== *)
(** * Integrity of a database state                                    *)
(* ================================================================== *)

(** What the schema guarantees of a state: the serial is ahead of every
    stored contact id, primary keys are unique, and every contact refers
    to a stored user (the foreign key, set by [create_contact]). *)
Definition serial_ahead (db : Session) : Prop :=
  Forall (fun c => Contact.id c < contacts_id_seq db) (contacts db).

Definition contact_keys_unique (db : Session) : Prop :=
  NoDup (map Contact.id (contacts db)).

Definition user_keys_unique (db : Session) : Prop :=
  NoDup (map User.id (users db)).

Definition has_owner (db : Session) (c : Contact.t) : Prop :=
  exists u, In u (users db) /\ Contact.user_id c = Some (User.id u).

Definition owners_stored (db : Session) : Prop :=
  Forall (has_owner db) (contacts db).

Record integrity (db : Session) : Prop := mkIntegrity {
  int_serial : serial_ahead db;
  int_contact_keys : contact_keys_unique db;
  int_user_keys : user_keys_unique db;
  int_owners : owners_stored db
}.

Definition empty_db : Session := mkSession [] [] 1.

(** A call of the owner-scoped repository interface, and a history of
    such calls, each with the user who makes it. *)
Inductive call :=
| Get (contact_id : Z)
| Create (body : ContactCreate.t)
| Update (contact_id : Z) (body : ContactUpdate.t)
| Remove (contact_id : Z).

Definition run (user : User.t) (k : call) (db : Session)
    : committed (option Contact.t) * Session :=
  match k with
  | Get i => (Ok (repository_contacts.get_contact i user db), db)
  | Create body =>
      match repository_contacts.create_contact body user db with
      | (Ok c, db') => (Ok (Some c), db')
      | (IntegrityError, db') => (IntegrityError, db')
      end
  | Update i body => repository_contacts.update_contact i body user db
  | Remove i =>
      let (removed, db') := repository_contacts.remove_contact i user db in
      (Ok removed, db')
  end.

Definition run_all (history : list (User.t * call)) (db : Session)
    : Session :=
  fold_left (fun d uk => snd (run (fst uk) (snd uk) d)) history db.


(* ================================================================== *)
(** * Vocabulary of the statements                                     *)
(* ================================================================== *)


(** The contact an update makes of a found one. *)
Definition overwritten (body : ContactUpdate.t) (c : Contact.t)
    : Contact.t :=
  Contact.mk (Contact.id c)
             (ContactUpdate.first_name body) (ContactUpdate.last_name body)
             (ContactUpdate.email body) (ContactUpdate.phone_number body)
             (ContactUpdate.birthday body)
             (ContactUpdate.additional_data body)
             (Contact.user_id c).

(** No contact of [user] has id [contact_id]. *)
Definition absent_for (contact_id : Z) (user : User.t) (db : Session)
    : Prop :=
  forall c, In c (contacts db) ->
            Contact.user_id c = Some (User.id user) ->
            Contact.id c <> contact_id.

(** A query string with no LIKE metacharacter in it. *)
Definition plain (q : string) : Prop :=
  no_meta (list_ascii_of_string q) = true.

(** The contacts that contain the three query strings, each in its
    column, case-insensitively. *)
Definition contains_all (first_name last_name email : string)
    (c : Contact.t) : bool :=
  icontains (Contact.first_name c) first_name
  && icontains (Contact.last_name c) last_name
  && icontains (Contact.email c) email.

(** [search_contacts] as the specification reads it, at one database
    state and one triple of query strings. *)
Definition search_is_substring_match (db : Session)
    (first_name last_name email : string) : Prop :=
  forall c,
    In c (repository_contacts.search_contacts db first_name last_name email)
    <-> In c (contacts db) /\ contains_all first_name last_name email c = true.

(** The window as the specification words it: same month as [today], day
    of month between today's and today's plus seven. *)
Definition in_claimed_window (today : date.t) (c : Contact.t) : bool :=
  match Contact.birthday c with
  | None => false
  | Some b =>
      (date.month b =? date.month today)
      && (date.day today <=? date.day b)
      && (date.day b <=? date.day today + 7)
  end.

(** The window the query computes: the upper bound is the day of month of
    the date seven days on. *)
Definition in_queried_window (today : date.t) (c : Contact.t) : bool :=
  match Contact.birthday c with
  | None => false
  | Some b =>
      (date.month b =? date.month today)
      && (date.day today <=? date.day b)
      && (date.day b <=? date.day (date.add_days today 7))
  end.

(** The three refusals of [login]. *)
Definition login_refused (auth_service : AuthService)
  (username password : string) (db : Session) : Prop :=
  match repository_users.get_user_by_email username db with
  | None => True
  | Some user =>
      User.confirmed user = false
      \/ verify_password auth_service password (User.password user) = false
  end.

(* ================================================================== *)
(** * A small address book                                             *)
(* ================================================================== *)

Definition alice : User.t :=
  User.mk 1 (Some "alice"%string) "alice@example.com" "$argon2-alice"
          (Some "refresh-alice"%string) true None.

Definition bob : User.t :=
  User.mk 2 (Some "bob"%string) "bob@example.com" "$argon2-bob" None false
          None.

Definition ann : Contact.t :=
  Contact.mk 1 (Some "Ann"%string) (Some "Lee"%string)
             (Some "a@x.com"%string) (Some "555"%string)
             (Some (date.mk 1990 1 30)) None (Some 1).

Definition address_book : Session := mkSession [alice; bob] [ann] 2.

(** A contact row without an owner, as the nullable [user_id] admits. *)
Definition stray : Contact.t :=
  Contact.mk 5 (Some "Zed"%string) (Some "Nemo"%string)
             (Some "z@x.com"%string) None None None None.

(** A request that carries no credentials. *)
Definition anonymous : Request := mkRequest None "http://testserver/".

(** A small auth service to run the handlers on: a password verifies
    against its hash when the hash is the password behind a fixed prefix,
    and a refresh token [refresh-NAME...] decodes to NAME's address. *)
Definition demo_auth : AuthService :=
  mkAuthService
    (fun plain_password hashed =>
       String.eqb hashed ("$argon2-" ++ plain_password))
    (fun email => ("access:" ++ email)%string)
    (fun email => ("refresh:" ++ email)%string)
    (fun token =>
       if prefix "refresh-alice" token then Return "alice@example.com"%string
       else if prefix "refresh-bob" token then Return "bob@example.com"%string
       else HTTPException HTTP_401_UNAUTHORIZED
                          "Could not validate credentials")
    (fun request db =>
       match authorization request with
       | Some "token-alice"%string => Return alice
       | Some "token-bob"%string => Return bob
       | _ => HTTPException HTTP_401_UNAUTHORIZED
                            "Could not validate credentials"
       end).

Definition carl_payload : ContactCreate.t :=
  ContactCreate.mk (Some "Carl"%string) (Some "Roe"%string)
                   (Some "c@x.com"%string) (Some "777"%string) None None.

Definition blank_payload : ContactUpdate.t :=
  ContactUpdate.mk (Some "Anna"%string) None (Some "anna@x.com"%string) None
                   None (Some "moved"%string).

(** A second contact of Alice's, and the address book that holds both. *)
Definition ben : Contact.t :=
  Contact.mk 2 (Some "Ben"%string) (Some "Ray"%string)
             (Some "b@x.com"%string) (Some "556"%string) None None (Some 1).

Definition two_contacts : Session := mkSession [alice; bob] [ann; ben] 3.

(** A first update payload, for a contact updated twice. *)
Definition renamed_payload : ContactUpdate.t :=
  ContactUpdate.mk (Some "Annie"%string) (Some "Lee"%string)
                   (Some "annie@x.com"%string) (Some "555"%string) None None.

(** An update payload whose email is Ben's. *)
Definition ben_email_payload : ContactUpdate.t :=
  ContactUpdate.mk (Some "Anna"%string) (Some "Lee"%string)
                   (Some "b@x.com"%string) (Some "555"%string) None None.

(** A stored name that is not ASCII is outside the matching theorems. *)
Definition is_ascii (s : string) : bool :=
  forallb (fun a => (nat_of_ascii a <? 128)%nat) (list_ascii_of_string s).

Definition ascii_column (column : option string) : bool :=
  match column with
  | None => true
  | Some s => is_ascii s
  end.

(** The three searched columns of every stored contact are ASCII text. *)
Definition ascii_names (db : Session) : Prop :=
  Forall (fun c => ascii_column (Contact.first_name c)
                   && ascii_column (Contact.last_name c)
                   && ascii_column (Contact.email c) = true)
         (contacts db).

(** No two stored users share an email (the column is declared unique,
    and [signup] looks the email up before it inserts). *)
Definition emails_unique (db : Session) : Prop :=
  NoDup (map User.email (users db)).

(** No stored user has this email. *)
Definition email_free (email : string) (db : Session) : Prop :=
  forall u, In u (users db) -> User.email u <> email.

(** [db'] differs from [db] in refresh tokens at most. *)
Definition only_tokens_differ (db db' : Session) : Prop :=
  contacts db' = contacts db
  /\ contacts_id_seq db' = contacts_id_seq db
  /\ map (fun u => User.set_refresh_token u None) (users db')
     = map (fun u => User.set_refresh_token u None) (users db).

(** A handler result that carries no body and left [db] as it was. *)
Definition refused {A : Type} (db : Session) (result : outcome A * Session)
    : Prop :=
  snd result = db /\ forall body, fst result <> Return body.

(** The user row [signup] inserts for a body. *)
Definition signed_up (hash : string -> string) (body : UserModel.t)
    (new_id : Z) : User.t :=
  User.mk new_id (Some (UserModel.username body)) (UserModel.email body)
          (hash (UserModel.password body)) None false None.

(** A second sample service, whose refresh tokens decode to the email
    they were made for, with a password hash and a confirmation-token
    decoder to match. *)
Definition argon2 (plain_password : string) : string :=
  ("$argon2-" ++ plain_password)%string.

Definition after_prefix (n : nat) (token : string) : string :=
  substring n (String.length token - n) token.

Definition email_of_token (token : string) : outcome string :=
  if prefix "confirm:" token then Return (after_prefix 8 token)
  else HTTPException 422 "Invalid token for email verification".

Definition round_trip_auth : AuthService :=
  mkAuthService
    (fun plain_password hashed => String.eqb hashed (argon2 plain_password))
    (fun email => ("access:" ++ email)%string)
    (fun email => ("refresh:" ++ email)%string)
    (fun token =>
       if prefix "refresh:" token then Return (after_prefix 8 token)
       else HTTPException HTTP_401_UNAUTHORIZED
                          "Could not validate credentials")
    (fun request db =>
       match authorization request with
       | Some "token-alice"%string => Return alice
       | Some "token-bob"%string => Return bob
       | _ => HTTPException HTTP_401_UNAUTHORIZED
                            "Could not validate credentials"
       end).

Definition carol_body : UserModel.t :=
  UserModel.mk "carol" "carol@example.com" "s3cret".


Definition as_bob : Request :=
  mkRequest (Some "token-bob"%string) "http://testserver/".

(* ================================================================== *)
(** * Queries: filter and first                                        *)
(* ================================================================== *)

Section query_facts.

Context {A : Type}.
Variable p : A -> bool.

Lemma first_filter_none (l : list A) :
  first (filter p l) = None <-> Forall (fun x => p x = false) l.
Proof.
  induction l as [|x l IH]; simpl.
  - split; [constructor | reflexivity].
  - destruct (p x) eqn:E; simpl.
    + split; [discriminate | intros H; inversion H; congruence].
    + rewrite IH. split; [intros H; constructor; assumption
                         | intros H; inversion H; assumption].
Qed.

Lemma first_filter_some (l : list A) (x : A) :
  first (filter p l) = Some x ->
  exists l1 l2, l = l1 ++ x :: l2 /\ p x = true
                /\ Forall (fun y => p y = false) l1.
Proof.
  induction l as [|y l IH]; simpl; [discriminate|].
  destruct (p y) eqn:E; simpl.
  - intros H; injection H as ->. exists [], l. repeat split; auto.
  - intros H. destruct (IH H) as (l1 & l2 & -> & Hx & Hl1).
    exists (y :: l1), l2. repeat split; auto.
Qed.

Lemma first_filter_in (l : list A) (x : A) :
  first (filter p l) = Some x -> In x l /\ p x = true.
Proof.
  intros H. destruct (first_filter_some l x H) as (l1 & l2 & -> & Hx & _).
  split; [apply in_or_app; right; left; reflexivity | assumption].
Qed.

Lemma filter_map_stable (f : A -> A) (l : list A) :
  (forall x, p (f x) = p x) -> filter p (map f l) = map f (filter p l).
Proof.
  intros Hf. induction l as [|x l IH]; simpl; [reflexivity|].
  rewrite Hf. destruct (p x); simpl; congruence.
Qed.

Lemma first_map (f : A -> A) (l : list A) :
  first (map f l) = option_map f (first l).
Proof. destruct l; reflexivity. Qed.

End query_facts.

(* ================================================================== *)
(** * The calendar                                                     *)
(* ================================================================== *)

Lemma days_in_month_bounds (y m : Z) : 28 <= date.days_in_month y m <= 31.
Proof.
  unfold date.days_in_month.
  destruct (m =? 2); [destruct (date.is_leap y); lia|].
  destruct ((m =? 4) || (m =? 6) || (m =? 9) || (m =? 11)); lia.
Qed.

Lemma tomorrow_valid (d : date.t) : date.valid d -> date.valid (date.tomorrow d).
Proof.
  unfold date.valid, date.tomorrow. intros [Hm Hd].
  destruct (date.day d <? _) eqn:E; simpl.
  - apply Z.ltb_lt in E. lia.
  - destruct (date.month d <? 12) eqn:E'; simpl.
    + apply Z.ltb_lt in E'.
      pose proof (days_in_month_bounds (date.year d) (date.month d + 1)). lia.
    + pose proof (days_in_month_bounds (date.year d + 1) 1). lia.
Qed.

Lemma add_days_valid (d : date.t) (n : nat) :
  date.valid d -> date.valid (date.add_days d n).
Proof.
  intros H. unfold date.add_days. induction n as [|n IH]; simpl.
  - exact H.
  - apply tomorrow_valid, IH.
Qed.

(* ================================================================== *)
(** * Attribute assignment                                             *)
(* ================================================================== *)

(** Goes through the name tests of [setattr] and the reading of the
    value; what is left in each case holds by computation. *)
Ltac setattr_cases c :=
  unfold setattr; destruct c; simpl;
  repeat match goal with
         | |- context [if ?b then _ else _] => destruct b
         end;
  try reflexivity;
  match goal with
  | |- context [as_str ?v] => destruct (as_str v); reflexivity
  | |- context [as_date ?v] => destruct (as_date v); reflexivity
  end.

Lemma setattr_id (c : Contact.t) (field : string) (value : pyval) :
  Contact.id (setattr c field value) = Contact.id c.
Proof.
  setattr_cases c.
Qed.

Lemma setattr_user_id (c : Contact.t) (field : string) (value : pyval) :
  Contact.user_id (setattr c field value) = Contact.user_id c.
Proof.
  setattr_cases c.
Qed.

Lemma assign_all_id (items : list (string * pyval)) (c : Contact.t) :
  Contact.id (repository_contacts.assign_all items c) = Contact.id c.
Proof.
  unfold repository_contacts.assign_all.
  revert c. induction items as [|it items IH]; intros c; simpl.
  - reflexivity.
  - rewrite IH. apply setattr_id.
Qed.

Lemma assign_all_user_id (items : list (string * pyval)) (c : Contact.t) :
  Contact.user_id (repository_contacts.assign_all items c)
  = Contact.user_id c.
Proof.
  unfold repository_contacts.assign_all.
  revert c. induction items as [|it items IH]; intros c; simpl.
  - reflexivity.
  - rewrite IH. apply setattr_user_id.
Qed.

Lemma as_str_of_str (v : option string) : as_str (of_str v) = Some v.
Proof. destruct v; reflexivity. Qed.

Lemma as_date_of_date (v : option date.t) : as_date (of_date v) = Some v.
Proof. destruct v; reflexivity. Qed.

(** The loop over a [ContactUpdate] payload, computed: every data column
    ends up holding the payload's value, key and owner stay. *)
Lemma assign_all_dict (body : ContactUpdate.t) (c : Contact.t) :
  repository_contacts.assign_all (ContactUpdate.dict body) c
  = Contact.mk (Contact.id c)
               (ContactUpdate.first_name body)
               (ContactUpdate.last_name body)
               (ContactUpdate.email body)
               (ContactUpdate.phone_number body)
               (ContactUpdate.birthday body)
               (ContactUpdate.additional_data body)
               (Contact.user_id c).
Proof.
  destruct c, body.
  unfold repository_contacts.assign_all, ContactUpdate.dict, setattr; simpl.
  rewrite !as_str_of_str, !as_date_of_date. reflexivity.
Qed.

(** Read back by name, every item of the payload is what the contact
    holds after the loop. *)
Lemma assign_all_reads_back (body : ContactUpdate.t) (c : Contact.t)
    (field : string) (value : pyval) :
  In (field, value) (ContactUpdate.dict body) ->
  getattr (repository_contacts.assign_all (ContactUpdate.dict body) c) field
  = Some value.
Proof.
  rewrite assign_all_dict. unfold ContactUpdate.dict. simpl.
  intros H.
  repeat (destruct H as [H|H]; [injection H as <- <-; reflexivity|]).
  contradiction.
Qed.

(* ================================================================== *)
(** * Writes keep the integrity of the state                           *)
(* ================================================================== *)

Lemma owned_row_true (i : Z) (user : User.t) (c : Contact.t) :
  repository_contacts.owned_row i user c = true <->
  Contact.id c = i /\ Contact.user_id c = Some (User.id user).
Proof.
  unfold repository_contacts.owned_row, sql_eq.
  rewrite andb_true_iff, Z.eqb_eq.
  destruct (Contact.user_id c) as [x|].
  - rewrite Z.eqb_eq. split; intros [H1 H2]; split; congruence.
  - split; intros [_ H]; discriminate.
Qed.

Lemma NoDup_map_filter {A B : Type} (f : A -> B) (q : A -> bool)
    (l : list A) :
  NoDup (map f l) -> NoDup (map f (filter q l)).
Proof.
  induction l as [|x l IH]; simpl; intros H; [constructor|].
  inversion H as [|? ? Hnotin Hnd]; subst.
  destruct (q x); simpl; [|auto].
  constructor; [|auto].
  intros Hin. apply Hnotin.
  apply in_map_iff in Hin. destruct Hin as (y & Hy & Hin).
  apply filter_In in Hin. apply in_map_iff. exists y. tauto.
Qed.

Lemma filter_none {A : Type} (q : A -> bool) (l : list A) :
  Forall (fun x => q x = false) l -> filter q l = [].
Proof.
  induction 1 as [|x l Hx _ IH]; simpl; [reflexivity|].
  rewrite Hx. exact IH.
Qed.

Lemma filter_all {A : Type} (q : A -> bool) (l : list A) :
  Forall (fun x => q x = true) l -> filter q l = l.
Proof.
  induction 1 as [|x l Hx _ IH]; simpl; [reflexivity|].
  rewrite Hx, IH. reflexivity.
Qed.

Lemma filter_filter_comm {A : Type} (p q : A -> bool) (l : list A) :
  filter p (filter q l) = filter q (filter p l).
Proof.
  induction l as [|x l IH]; simpl; [reflexivity|].
  destruct (p x) eqn:Hp, (q x) eqn:Hq; simpl; rewrite ?Hp, ?Hq, IH;
    reflexivity.
Qed.

Lemma filter_implied {A : Type} (p q : A -> bool) (l : list A) :
  (forall x, p x = true -> q x = true) -> filter p (filter q l) = filter p l.
Proof.
  intros H. rewrite filter_filter_comm. apply filter_all, Forall_forall.
  intros x Hx. apply filter_In in Hx. apply H, Hx.
Qed.

Lemma filter_excluded {A : Type} (p q : A -> bool) (l : list A) :
  (forall x, p x = true -> q x = false) -> filter p (filter q l) = [].
Proof.
  intros H. rewrite filter_filter_comm. apply filter_none, Forall_forall.
  intros x Hx. apply filter_In in Hx. apply H, Hx.
Qed.

(** The constraint tests, read as statements about the rows. *)
Lemma key_held_false (i : Z) (rows : list Contact.t) :
  key_held i rows = false <-> ~ In i (map Contact.id rows).
Proof.
  unfold key_held. split.
  - intros H Hin. apply in_map_iff in Hin. destruct Hin as (r & Hr & Hin).
    assert (existsb (fun r => Contact.id r =? i) rows = true)
      by (apply existsb_exists; exists r; split;
          [exact Hin | apply Z.eqb_eq, Hr]).
    congruence.
  - intros H. destruct (existsb _ rows) eqn:E; [|reflexivity].
    apply existsb_exists in E. destruct E as (r & Hin & Hr).
    apply Z.eqb_eq in Hr. destruct H. rewrite <- Hr. apply in_map, Hin.
Qed.

Lemma user_stored_true (uid : Z) (rows : list User.t) :
  user_stored (Some uid) rows = true <->
  exists u, In u rows /\ User.id u = uid.
Proof.
  unfold user_stored. rewrite existsb_exists.
  split; intros (u & Hin & H); exists u; split; auto; apply Z.eqb_eq, H.
Qed.

Lemma serial_ahead_no_key (db : Session) :
  serial_ahead db -> key_held (contacts_id_seq db) (contacts db) = false.
Proof.
  intros Hs. apply key_held_false. intros Hin.
  apply in_map_iff in Hin. destruct Hin as (r & Hr & Hin).
  unfold serial_ahead in Hs. rewrite Forall_forall in Hs.
  specialize (Hs r Hin). lia.
Qed.

(** The two ways [create_contact] ends. *)
Lemma create_contact_cases (body : ContactCreate.t) (user : User.t)
    (db : Session) :
  let contact :=
    Contact.mk (contacts_id_seq db)
               (ContactCreate.first_name body) (ContactCreate.last_name body)
               (ContactCreate.email body) (ContactCreate.phone_number body)
               (ContactCreate.birthday body)
               (ContactCreate.additional_data body)
               (Some (User.id user)) in
  (repository_contacts.create_contact body user db
   = (IntegrityError,
      mkSession (users db) (contacts db) (contacts_id_seq db + 1))
   /\ (key_held (contacts_id_seq db) (contacts db) = true
       \/ email_held (ContactCreate.email body) (contacts db) = true
       \/ user_stored (Some (User.id user)) (users db) = false))
  \/ (repository_contacts.create_contact body user db
      = (Ok contact,
         mkSession (users db) (contacts db ++ [contact])
                   (contacts_id_seq db + 1))
      /\ key_held (contacts_id_seq db) (contacts db) = false
      /\ email_held (ContactCreate.email body) (contacts db) = false
      /\ user_stored (Some (User.id user)) (users db) = true).
Proof.
  intros contact. unfold repository_contacts.create_contact.
  fold contact. cbn [Contact.id Contact.email Contact.user_id contact].
  destruct (key_held _ _); [left; auto|].
  destruct (email_held _ _); [left; auto|].
  destruct (user_stored _ _); [right; auto | left; auto].
Qed.

Lemma integrity_empty : integrity empty_db.
Proof. split; constructor. Qed.

Lemma integrity_serial_moves (db : Session) :
  integrity db ->
  integrity (mkSession (users db) (contacts db) (contacts_id_seq db + 1)).
Proof.
  intros [Hs Hk Hu Ho]. split; try assumption.
  unfold serial_ahead in *; simpl.
  eapply Forall_impl; [|exact Hs]. simpl; intros; lia.
Qed.

Lemma integrity_create (body : ContactCreate.t) (user : User.t)
    (db : Session) :
  integrity db ->
  integrity (snd (repository_contacts.create_contact body user db)).
Proof.
  intros Hi.
  destruct (create_contact_cases body user db)
    as [[-> _] | (-> & Hkey & _ & Hfk)]; cbn [snd].
  - apply integrity_serial_moves, Hi.
  - destruct Hi as [Hs Hk Hu Ho]. split; simpl.
    + unfold serial_ahead in *; simpl. apply Forall_app. split.
      * eapply Forall_impl; [|exact Hs]. simpl; intros; lia.
      * constructor; [simpl; lia | constructor].
    + unfold contact_keys_unique in *; simpl.
      rewrite map_app; simpl.
      apply NoDup_app; [exact Hk | constructor; [intros [] | constructor] |].
      intros x Hx [<-|[]]. apply key_held_false in Hkey. exact (Hkey Hx).
    + exact Hu.
    + unfold owners_stored in *; simpl. apply Forall_app. split.
      * exact Ho.
      * constructor; [|constructor].
        apply user_stored_true in Hfk. destruct Hfk as (u & Hin & Hid).
        exists u. split; [exact Hin | simpl; congruence].
Qed.

Lemma integrity_remove (i : Z) (user : User.t) (db : Session) :
  integrity db ->
  integrity (snd (repository_contacts.remove_contact i user db)).
Proof.
  intros [Hs Hk Hu Ho]. unfold repository_contacts.remove_contact.
  destruct (first _) as [c|]; simpl; [|split; assumption].
  split; simpl.
  - unfold serial_ahead in *; simpl. rewrite Forall_forall in *.
    intros x Hx. apply filter_In in Hx. apply Hs, Hx.
  - unfold contact_keys_unique in *; simpl. apply NoDup_map_filter, Hk.
  - exact Hu.
  - unfold owners_stored in *; simpl. rewrite Forall_forall in *.
    intros x Hx. apply filter_In in Hx. apply Ho, Hx.
Qed.

(** The rows an accepted update leaves: every one of them is a stored
    row, with its key and owner, the rewritten ones behind the others. *)
Lemma in_updated_rows (c' : Contact.t) (l : list Contact.t)
    (x : Contact.t) :
  In x (others (Contact.id c') l
        ++ map (repository_contacts.write_columns c')
               (filter (fun r => Contact.id r =? Contact.id c') l)) ->
  exists r, In r l /\ Contact.id x = Contact.id r
            /\ Contact.user_id x = Contact.user_id r.
Proof.
  intros Hx. apply in_app_or in Hx. destruct Hx as [Hx|Hx].
  - apply filter_In in Hx. exists x. tauto.
  - apply in_map_iff in Hx. destruct Hx as (r & <- & Hr).
    apply filter_In in Hr. exists r. split; [tauto|]. split; reflexivity.
Qed.

Lemma updated_rows_keys (c' : Contact.t) (l : list Contact.t) :
  NoDup (map Contact.id l) ->
  NoDup (map Contact.id
           (others (Contact.id c') l
            ++ map (repository_contacts.write_columns c')
                   (filter (fun r => Contact.id r =? Contact.id c') l))).
Proof.
  intros Hnd. rewrite map_app, map_map. simpl.
  apply NoDup_app.
  - apply NoDup_map_filter, Hnd.
  - apply NoDup_map_filter, Hnd.
  - intros x H1 H2. apply in_map_iff in H1. destruct H1 as (r1 & <- & H1).
    apply in_map_iff in H2. destruct H2 as (r2 & E & H2).
    apply filter_In in H1. apply filter_In in H2.
    destruct H1 as [_ H1]. destruct H2 as [_ H2].
    apply negb_true_iff, Z.eqb_neq in H1. apply Z.eqb_eq in H2. congruence.
Qed.

Lemma integrity_commit_update (c' : Contact.t) (db db' : Session) :
  integrity db ->
  repository_contacts.commit_update c' db = Some db' ->
  integrity db'.
Proof.
  intros [Hs Hk Hu Ho] Hc. unfold repository_contacts.commit_update in Hc.
  destruct (email_held _ _); [discriminate|]. injection Hc as <-.
  split; simpl.
  - unfold serial_ahead in *; simpl. rewrite Forall_forall in *.
    intros x Hx. apply in_updated_rows in Hx.
    destruct Hx as (r & Hr & Hid & _). rewrite Hid. apply Hs, Hr.
  - apply updated_rows_keys, Hk.
  - exact Hu.
  - unfold owners_stored, has_owner in *; simpl. rewrite Forall_forall in *.
    intros x Hx. apply in_updated_rows in Hx.
    destruct Hx as (r & Hr & _ & Hu'). rewrite Hu'. apply Ho, Hr.
Qed.

Lemma integrity_update (i : Z) (body : ContactUpdate.t) (user : User.t)
    (db : Session) :
  integrity db ->
  integrity (snd (repository_contacts.update_contact i body user db)).
Proof.
  intros Hi. unfold repository_contacts.update_contact.
  destruct (first _) as [c|]; [|exact Hi].
  destruct (repository_contacts.commit_update _ db) as [db'|] eqn:E;
    cbn [snd]; [|exact Hi].
  apply (integrity_commit_update _ db db' Hi E).
Qed.

Lemma run_users (user : User.t) (k : call) (db : Session) :
  users (snd (run user k db)) = users db.
Proof.
  destruct k as [i | body | i body | i]; simpl.
  - reflexivity.
  - destruct (create_contact_cases body user db) as [[-> _] | [-> _]];
      reflexivity.
  - unfold repository_contacts.update_contact.
    destruct (first _); [|reflexivity].
    unfold repository_contacts.commit_update.
    destruct (email_held _ _); reflexivity.
  - unfold repository_contacts.remove_contact.
    destruct (first _); reflexivity.
Qed.

Lemma integrity_run (user : User.t) (k : call) (db : Session) :
  integrity db -> integrity (snd (run user k db)).
Proof.
  intros Hi. destruct k as [i | body | i body | i]; simpl.
  - exact Hi.
  - pose proof (integrity_create body user db Hi) as H.
    destruct (repository_contacts.create_contact body user db) as [[c|] d];
      exact H.
  - apply integrity_update, Hi.
  - pose proof (integrity_remove i user db Hi) as H.
    destruct (repository_contacts.remove_contact i user db) as [r d].
    exact H.
Qed.

(** Every state reached from an intact one by repository calls is
    intact, whoever makes the calls and whether or not the database
    accepts them. *)
Lemma integrity_run_all (history : list (User.t * call)) (db : Session) :
  integrity db -> integrity (run_all history db).
Proof.
  intros Hi. revert db Hi.
  induction history as [|[u k] history IH]; intros db Hi; simpl.
  - exact Hi.
  - apply IH, integrity_run, Hi.
Qed.

Lemma integrity_update_token (user : User.t) (token : option string)
    (db : Session) :
  integrity db -> integrity (repository_users.update_token user token db).
Proof.
  intros [Hs Hk Hu Ho].
  assert (Hids : map User.id
                   (map (fun r => if User.id r =? User.id user
                                  then User.set_refresh_token r token else r)
                        (users db))
                 = map User.id (users db)).
  { rewrite map_map. apply map_ext. intros r.
    destruct (User.id r =? User.id user); reflexivity. }
  split; simpl; try assumption.
  - unfold user_keys_unique; simpl. rewrite Hids. exact Hu.
  - unfold owners_stored, has_owner in *; simpl.
    eapply Forall_impl; [|exact Ho]. intros c (o & Hin & Hc).
    assert (In (User.id o) (map User.id (users db))) as Hid
      by (apply in_map, Hin).
    rewrite <- Hids in Hid. apply in_map_iff in Hid.
    destruct Hid as (o' & Ho' & Hin'). exists o'. split; [exact Hin'|].
    congruence.
Qed.

(* ================================================================== *)
(** * Ownership scoping                                                *)
(* ================================================================== *)

Lemma NoDup_map_eq {A B : Type} (f : A -> B) (l : list A) (x y : A) :
  NoDup (map f l) -> In x l -> In y l -> f x = f y -> x = y.
Proof.
  induction l as [|z l IH]; simpl; intros Hnd Hx Hy Heq; [contradiction|].
  inversion Hnd as [|? ? Hnotin Hnd']; subst.
  destruct Hx as [->|Hx], Hy as [->|Hy]; auto.
  - exfalso. apply Hnotin. rewrite Heq. apply in_map, Hy.
  - exfalso. apply Hnotin. rewrite <- Heq. apply in_map, Hx.
Qed.

(** With unique keys, the lookup of a stored contact's id finds that
    contact for its owner and nothing for anybody else. *)
Lemma stranger_finds_nothing (c : Contact.t) (owner user : User.t)
    (db : Session) :
  contact_keys_unique db -> In c (contacts db) ->
  Contact.user_id c = Some (User.id owner) ->
  User.id user <> User.id owner ->
  first (filter (repository_contacts.owned_row (Contact.id c) user)
                (contacts db)) = None.
Proof.
  intros Hk Hin Hc Hne. apply first_filter_none, Forall_forall. intros r Hr.
  destruct (repository_contacts.owned_row (Contact.id c) user r) eqn:E;
    [|reflexivity].
  apply owned_row_true in E. destruct E as [Hid Hu].
  rewrite (NoDup_map_eq Contact.id (contacts db) r c Hk Hr Hin Hid) in Hu.
  congruence.
Qed.

Lemma owner_finds (c : Contact.t) (owner : User.t) (db : Session) :
  contact_keys_unique db -> In c (contacts db) ->
  Contact.user_id c = Some (User.id owner) ->
  first (filter (repository_contacts.owned_row (Contact.id c) owner)
                (contacts db)) = Some c.
Proof.
  intros Hk Hin Hc.
  destruct (first _) as [r|] eqn:E.
  - apply first_filter_in in E. destruct E as [Hr Hrow].
    apply owned_row_true in Hrow. destruct Hrow as [Hid _].
    rewrite (NoDup_map_eq Contact.id (contacts db) r c Hk Hr Hin Hid).
    reflexivity.
  - exfalso. apply first_filter_none in E. rewrite Forall_forall in E.
    specialize (E c Hin).
    assert (repository_contacts.owned_row (Contact.id c) owner c = true)
      by (apply owned_row_true; auto).
    congruence.
Qed.

(** A contact that [create_contact] returns is stored under the caller. *)
Lemma created_is_owned (body : ContactCreate.t) (owner : User.t)
    (db db' : Session) (c : Contact.t) :
  repository_contacts.create_contact body owner db = (Ok c, db') ->
  In c (contacts db') /\ Contact.user_id c = Some (User.id owner).
Proof.
  intros H.
  destruct (create_contact_cases body owner db) as [[E _] | [E _]];
    rewrite E in H; [discriminate|].
  injection H as <- <-. split; [|reflexivity].
  simpl. apply in_or_app. right. left. reflexivity.
Qed.

Lemma in_firstn {A : Type} (n : nat) (l : list A) (x : A) :
  In x (firstn n l) -> In x l.
Proof.
  intros H. rewrite <- (firstn_skipn n l). apply in_or_app. left. exact H.
Qed.

Lemma in_skipn {A : Type} (n : nat) (l : list A) (x : A) :
  In x (skipn n l) -> In x l.
Proof.
  intros H. rewrite <- (firstn_skipn n l). apply in_or_app. right. exact H.
Qed.

Lemma listing_is_scoped (c : Contact.t) (owner user : User.t)
    (skip limit : nat) (db : Session) :
  Contact.user_id c = Some (User.id owner) ->
  User.id owner <> User.id user ->
  ~ In c (repository_contacts.get_contacts skip limit user db).
Proof.
  intros Hc Hne Hin. unfold repository_contacts.get_contacts in Hin.
  apply in_firstn, in_skipn, filter_In in Hin. destruct Hin as [_ Hin].
  rewrite Hc in Hin. simpl in Hin. apply Z.eqb_eq in Hin. congruence.
Qed.

(** C1.  In every database state with unique contact keys, whatever
    calls of whichever users led to it, a stored contact whose owner is
    [A] is out of reach for every other owner [B]: no page of
    [get_contacts] for [B] lists it, and [get_contact], [update_contact]
    and [remove_contact] called by [B] on its id find nothing, return
    [None] and leave the database, the contact with it, as it is. *)
Theorem contact_scoped_to_owner
    (db : Session) (A B : User.t) (c : Contact.t)
    (fields : ContactUpdate.t) :
  contact_keys_unique db ->
  In c (contacts db) ->
  Contact.user_id c = Some (User.id A) ->
  User.id A <> User.id B ->
  (forall skip limit,
     ~ In c (repository_contacts.get_contacts skip limit B db))
  /\ repository_contacts.get_contact (Contact.id c) B db = None
  /\ repository_contacts.update_contact (Contact.id c) fields B db
     = (Ok None, db)
  /\ repository_contacts.remove_contact (Contact.id c) B db = (None, db).
Proof.
  intros Hk Hin Hc Hne.
  assert (Hnone := stranger_finds_nothing c A B db Hk Hin Hc
                     (not_eq_sym Hne)).
  split; [intros skip limit; apply (listing_is_scoped c A B); auto|].
  unfold repository_contacts.get_contact, repository_contacts.update_contact,
    repository_contacts.remove_contact.
  rewrite Hnone. repeat split.
Qed.

(* ================================================================== *)
(** * Update and delete                                                *)
(* ================================================================== *)

Lemma absent_finds_nothing (contact_id : Z) (user : User.t) (db : Session) :
  absent_for contact_id user db ->
  first (filter (repository_contacts.owned_row contact_id user)
                (contacts db)) = None.
Proof.
  intros Habs. apply first_filter_none, Forall_forall. intros c Hc.
  destruct (repository_contacts.owned_row contact_id user c) eqn:E;
    [|reflexivity].
  apply owned_row_true in E. destruct E as [E1 E2].
  destruct (Habs c Hc E2 E1).
Qed.

Lemma delete_unique_row (c : Contact.t) (l1 l2 : list Contact.t) :
  NoDup (map Contact.id (l1 ++ c :: l2)) ->
  filter (fun r => negb (Contact.id r =? Contact.id c)) (l1 ++ c :: l2)
  = l1 ++ l2.
Proof.
  intros Hnd.
  assert (Hother : forall r, In r (l1 ++ l2) -> Contact.id r <> Contact.id c).
  { intros r Hr Heq.
    rewrite map_app in Hnd; simpl in Hnd.
    apply NoDup_remove_2 in Hnd. apply Hnd.
    rewrite <- map_app, <- Heq. apply in_map, Hr. }
  rewrite filter_app; simpl. rewrite Z.eqb_refl; simpl.
  rewrite !filter_all; [reflexivity | |];
    apply Forall_forall; intros r Hr; apply negb_true_iff, Z.eqb_neq;
    apply Hother, in_or_app; auto.
Qed.

(** C8.  When none of the caller's contacts has the given id,
    [update_contact] returns [None] and the database state after the call
    is the state before it. *)
Theorem update_contact_absent
    (contact_id : Z) (fields : ContactUpdate.t) (user : User.t)
    (db : Session) :
  absent_for contact_id user db ->
  repository_contacts.update_contact contact_id fields user db
  = (Ok None, db).
Proof.
  intros Habs. unfold repository_contacts.update_contact.
  rewrite (absent_finds_nothing _ _ _ Habs). reflexivity.
Qed.

(** C9.  In a state with unique contact keys: when none of the caller's
    contacts has the given id, [remove_contact] returns [None] and writes
    nothing; when a contact [c] of the caller has it, [remove_contact]
    returns [c] and the state after the call is the state before it with
    that one row taken out of [contacts], every other contact row, every
    user row and the serial being as they were. *)
Theorem remove_contact_frame
    (contact_id : Z) (user : User.t) (db : Session) :
  contact_keys_unique db ->
  (absent_for contact_id user db ->
   repository_contacts.remove_contact contact_id user db = (None, db))
  /\ (forall c,
        In c (contacts db) -> Contact.id c = contact_id ->
        Contact.user_id c = Some (User.id user) ->
        exists l1 l2,
          contacts db = l1 ++ c :: l2
          /\ ~ In c (l1 ++ l2)
          /\ repository_contacts.remove_contact contact_id user db
             = (Some c, mkSession (users db) (l1 ++ l2)
                                  (contacts_id_seq db))).
Proof.
  intros Hk. split.
  - intros Habs. unfold repository_contacts.remove_contact.
    rewrite (absent_finds_nothing _ _ _ Habs). reflexivity.
  - intros c Hin Hid Hu.
    unfold repository_contacts.remove_contact, repository_contacts.delete.
    destruct (first _) as [r|] eqn:E.
    + pose proof E as E0. apply first_filter_in in E0.
      destruct E0 as [Hr Hrow].
      apply owned_row_true in Hrow. destruct Hrow as [Hrid _].
      assert (r = c) as ->.
      { apply (NoDup_map_eq Contact.id (contacts db)); auto. congruence. }
      apply first_filter_some in E. destruct E as (l1 & l2 & Hl & _ & _).
      exists l1, l2. unfold contact_keys_unique in Hk. rewrite Hl in *.
      split; [reflexivity|]. split.
      * intros Hc. rewrite map_app in Hk; simpl in Hk.
        apply NoDup_remove_2 in Hk. apply Hk.
        rewrite <- map_app. apply in_map, Hc.
      * rewrite (delete_unique_row c l1 l2 Hk). reflexivity.
    + exfalso. apply first_filter_none in E. rewrite Forall_forall in E.
      specialize (E c Hin).
      assert (repository_contacts.owned_row contact_id user c = true)
        by (apply owned_row_true; auto).
      congruence.
Qed.

Lemma owned_row_write (i : Z) (user : User.t) (c' r : Contact.t) :
  repository_contacts.owned_row i user
    (repository_contacts.write_columns c' r)
  = repository_contacts.owned_row i user r.
Proof. reflexivity. Qed.

(** What the caller's lookup finds among the rows an update leaves. *)
Lemma lookup_in_updated_rows (i : Z) (user : User.t) (c c' : Contact.t)
    (l : list Contact.t) :
  first (filter (repository_contacts.owned_row i user) l) = Some c ->
  first (filter (repository_contacts.owned_row i user)
                (others i l
                 ++ map (repository_contacts.write_columns c')
                        (filter (fun r => Contact.id r =? i) l)))
  = Some (repository_contacts.write_columns c' c).
Proof.
  intros E. rewrite filter_app. unfold others.
  rewrite filter_excluded.
  - simpl. rewrite filter_map_stable by (intros r; apply owned_row_write).
    rewrite filter_implied.
    + rewrite first_map, E. reflexivity.
    + intros r Hr. apply owned_row_true in Hr. apply Z.eqb_eq, Hr.
  - intros r Hr. apply owned_row_true in Hr. destruct Hr as [Hr _].
    apply negb_false_iff, Z.eqb_eq, Hr.
Qed.

(** The two ways [update_contact] ends on a contact it finds. *)
Lemma update_found (i : Z) (body : ContactUpdate.t) (user : User.t)
    (db : Session) (c : Contact.t) :
  first (filter (repository_contacts.owned_row i user) (contacts db))
  = Some c ->
  repository_contacts.update_contact i body user db
  = if email_held (ContactUpdate.email body) (others i (contacts db))
    then (IntegrityError, db)
    else (Ok (Some (overwritten body c)),
          mkSession (users db)
                    (others i (contacts db)
                     ++ map (repository_contacts.write_columns
                               (overwritten body c))
                            (filter (fun r => Contact.id r =? i)
                                    (contacts db)))
                    (contacts_id_seq db)).
Proof.
  intros E. pose proof E as E0. apply first_filter_in in E0.
  destruct E0 as [_ E0]. apply owned_row_true in E0. destruct E0 as [Hid _].
  unfold repository_contacts.update_contact. rewrite E.
  rewrite assign_all_dict. fold (overwritten body c).
  unfold repository_contacts.commit_update.
  cbn [overwritten Contact.id Contact.email]. rewrite Hid.
  destruct (email_held _ _); reflexivity.
Qed.

(** C7, as amended.  For a contact [c] that [get_contact] finds for the
    caller: when no other stored contact holds the payload's email (or
    that email is [None]), [update_contact] returns the contact whose six
    data columns are the payload's values, [None] included, nothing of
    the old values being kept, and whose id and owner are those of [c],
    and that contact is what [get_contact] finds afterwards; when another
    stored contact holds the payload's email, the commit raises
    [IntegrityError] and the database is as before. *)
Theorem update_contact_overwrites
    (contact_id : Z) (body : ContactUpdate.t) (user : User.t)
    (db : Session) (c : Contact.t) :
  repository_contacts.get_contact contact_id user db = Some c ->
  let updated :=
    Contact.mk (Contact.id c)
               (ContactUpdate.first_name body)
               (ContactUpdate.last_name body)
               (ContactUpdate.email body)
               (ContactUpdate.phone_number body)
               (ContactUpdate.birthday body)
               (ContactUpdate.additional_data body)
               (Contact.user_id c) in
  let result := repository_contacts.update_contact contact_id body user db in
  (email_held (ContactUpdate.email body) (others contact_id (contacts db))
   = false ->
   fst result = Ok (Some updated)
   /\ repository_contacts.get_contact contact_id user (snd result)
      = Some updated)
  /\ (email_held (ContactUpdate.email body)
                 (others contact_id (contacts db)) = true ->
      result = (IntegrityError, db)).
Proof.
  intros Hget updated result. subst result.
  unfold repository_contacts.get_contact in *.
  rewrite (update_found contact_id body user db c Hget).
  fold (overwritten body c). fold (overwritten body c) in updated.
  split; intros Hheld; rewrite Hheld; [|reflexivity].
  cbn [fst snd contacts]. split; [reflexivity|].
  rewrite (lookup_in_updated_rows contact_id user c _ _ Hget).
  reflexivity.
Qed.

(* ================================================================== *)
(** * Pattern matching against a wrapped query string                  *)
(* ================================================================== *)

Lemma any_suffix_true (f : text -> bool) (s : text) :
  any_suffix f s = true <-> exists pre suf, s = pre ++ suf /\ f suf = true.
Proof.
  induction s as [|a s IH]; simpl.
  - rewrite orb_false_r. split.
    + intros H. exists [], []. auto.
    + intros (pre & suf & Hs & Hf).
      symmetry in Hs. apply app_eq_nil in Hs. destruct Hs as [_ ->]. exact Hf.
  - rewrite orb_true_iff, IH. split.
    + intros [H | (pre & suf & -> & Hf)].
      * exists [], (a :: s). auto.
      * exists (a :: pre), suf. auto.
    + intros (pre & suf & Hs & Hf). destruct pre as [|b pre]; simpl in Hs.
      * left. congruence.
      * right. injection Hs as _ ->. exists pre, suf. auto.
Qed.

Lemma any_suffix_ext (f g : text -> bool) (s : text) :
  (forall x, f x = g x) -> any_suffix f s = any_suffix g s.
Proof.
  intros H. induction s as [|a s IH]; simpl; rewrite H; [reflexivity|].
  rewrite IH. reflexivity.
Qed.

Lemma prefixb_true (q s : text) :
  prefixb q s = true <-> exists rest, s = q ++ rest.
Proof.
  revert s. induction q as [|a q IH]; intros s; simpl.
  - split; [intros _; exists s; reflexivity | reflexivity].
  - destruct s as [|b s].
    + split; [discriminate | intros (rest & H); discriminate].
    + rewrite andb_true_iff, Ascii.eqb_eq, IH. split.
      * intros (-> & rest & ->). exists rest. reflexivity.
      * intros (rest & H). injection H as -> ->. split; [reflexivity|].
        exists rest. reflexivity.
Qed.

(** [containsb q s] holds exactly when [q] occurs in [s] as a run of
    consecutive characters. *)
Lemma containsb_true (q s : text) :
  containsb q s = true <-> exists pre post, s = pre ++ q ++ post.
Proof.
  unfold containsb. rewrite any_suffix_true. split.
  - intros (pre & suf & -> & H). apply prefixb_true in H.
    destruct H as (post & ->). exists pre, post. reflexivity.
  - intros (pre & post & ->). exists pre, (q ++ post). split; [reflexivity|].
    apply prefixb_true. exists post. reflexivity.
Qed.

Lemma like_percent_only (s : text) : like ["%"%char] s = true.
Proof.
  simpl. apply any_suffix_true. exists s, []. split.
  - symmetry. apply app_nil_r.
  - reflexivity.
Qed.

Lemma like_literal_prefix (q s : text) :
  no_meta q = true -> like (q ++ ["%"%char]) s = prefixb q s.
Proof.
  revert s. induction q as [|c q IH]; intros s Hq.
  - apply like_percent_only.
  - simpl in Hq. apply andb_true_iff in Hq. destruct Hq as [Hc Hq].
    apply negb_true_iff in Hc. unfold is_meta in Hc.
    apply orb_false_iff in Hc. destruct Hc as [Hc H3].
    apply orb_false_iff in Hc. destruct Hc as [H1 H2].
    change (like ((c :: q) ++ ["%"%char]) s)
      with (if Ascii.eqb c "%" then any_suffix (like (q ++ ["%"%char])) s
            else if Ascii.eqb c "_" then
              match s with [] => false | _ :: s' => like (q ++ ["%"%char]) s' end
            else if Ascii.eqb c "\" then
              match q ++ ["%"%char] with
              | [] => false
              | e :: p'' =>
                  match s with
                  | [] => false
                  | a :: s' => Ascii.eqb e a && like p'' s'
                  end
              end
            else
              match s with
              | [] => false
              | a :: s' => Ascii.eqb c a && like (q ++ ["%"%char]) s'
              end).
    rewrite H1, H2, H3. destruct s as [|a s]; simpl; [reflexivity|].
    rewrite IH by exact Hq. reflexivity.
Qed.

(** A query string without metacharacters, wrapped in [%]: LIKE is the
    substring test. *)
Lemma like_wrapped (q s : text) :
  no_meta q = true ->
  like ("%"%char :: q ++ ["%"%char]) s = containsb q s.
Proof.
  intros Hq. unfold containsb.
  change (like ("%"%char :: q ++ ["%"%char]) s)
    with (any_suffix (like (q ++ ["%"%char])) s).
  apply any_suffix_ext. intros x. apply like_literal_prefix, Hq.
Qed.

Lemma is_meta_lower (a : ascii) : is_meta (lower_ascii a) = is_meta a.
Proof. destruct a as [[] [] [] [] [] [] [] []]; vm_compute; reflexivity. Qed.

Lemma no_meta_lower (q : text) : no_meta (lower q) = no_meta q.
Proof.
  unfold no_meta, lower.
  induction q as [|a q IH]; simpl; [reflexivity|].
  rewrite is_meta_lower, IH. reflexivity.
Qed.

Lemma ilike_wrapped (column : option string) (q : string) :
  no_meta (list_ascii_of_string q) = true ->
  ilike column (percent_wrap q) = icontains column q.
Proof.
  intros Hq. destruct column as [s|]; simpl; [|reflexivity].
  unfold percent_wrap, lower. simpl map. rewrite map_app. simpl map.
  change (lower_ascii "%") with "%"%char.
  apply like_wrapped. fold (lower (list_ascii_of_string q)).
  rewrite no_meta_lower. exact Hq.
Qed.

(* ================================================================== *)
(** * The join with [users]                                            *)
(* ================================================================== *)

Lemma flat_map_filter {A : Type} (g : A -> bool) (l : list A) :
  flat_map (fun x => if g x then [x] else []) l = filter g l.
Proof.
  induction l as [|x l IH]; simpl; [reflexivity|].
  rewrite IH. destruct (g x); reflexivity.
Qed.

Lemma join_no_owner (c : Contact.t) (b : bool) (us : list User.t) :
  (forall u, In u us -> sql_eq (Contact.user_id c) (User.id u) = false) ->
  flat_map (fun u => if b && sql_eq (Contact.user_id c) (User.id u)
                     then [c] else []) us = [].
Proof.
  induction us as [|u us IH]; simpl; intros H; [reflexivity|].
  rewrite (H u (or_introl eq_refl)), andb_false_r. simpl.
  apply IH. intros v Hv. apply H. right. exact Hv.
Qed.

Lemma join_one_owner (c : Contact.t) (b : bool) (us : list User.t) :
  NoDup (map User.id us) ->
  (exists u, In u us /\ Contact.user_id c = Some (User.id u)) ->
  flat_map (fun u => if b && sql_eq (Contact.user_id c) (User.id u)
                     then [c] else []) us
  = if b then [c] else [].
Proof.
  induction us as [|u us IH]; simpl; intros Hnd (o & Ho & Hc).
  - contradiction.
  - inversion Hnd as [|? ? Hnotin Hnd']; subst.
    destruct Ho as [->|Ho].
    + replace (sql_eq (Contact.user_id c) (User.id o)) with true
        by (rewrite Hc; simpl; symmetry; apply Z.eqb_refl).
      rewrite andb_true_r, join_no_owner.
      * destruct b; reflexivity.
      * intros v Hv. rewrite Hc. simpl. apply Z.eqb_neq. intros Heq.
        apply Hnotin. rewrite Heq. apply in_map, Hv.
    + assert (User.id o <> User.id u) as Hne.
      { intros Heq. apply Hnotin. rewrite <- Heq. apply in_map, Ho. }
      replace (sql_eq (Contact.user_id c) (User.id u)) with false.
      * rewrite andb_false_r. simpl. apply IH; [exact Hnd'|].
        exists o. auto.
      * rewrite Hc. simpl. symmetry. apply Z.eqb_neq. exact Hne.
Qed.

(** With unique user keys and every contact's owner stored, joining
    [users] on the owner selects each contact once. *)
Lemma select_join_owner (g : Contact.t -> bool) (db : Session) :
  user_keys_unique db -> owners_stored db ->
  select_join (fun c u => g c && sql_eq (Contact.user_id c) (User.id u))
              (contacts db) (users db)
  = filter g (contacts db).
Proof.
  unfold user_keys_unique, owners_stored, has_owner, select_join.
  intros Hu Ho. rewrite <- flat_map_filter.
  induction Ho as [|c l Hc _ IH]; simpl; [reflexivity|].
  rewrite IH, (join_one_owner c (g c) (users db) Hu Hc). reflexivity.
Qed.

(* ================================================================== *)
(** * Search                                                           *)
(* ================================================================== *)

Lemma icontains_empty (column : option string) :
  column <> None -> icontains column "" = true.
Proof.
  destruct column as [s|]; [intros _|congruence].
  simpl. unfold containsb.
  destruct (lower (list_ascii_of_string s)); reflexivity.
Qed.

(** A contact without an owner pairs with no row of [users] and is not
    found, whatever the query strings. *)
Lemma search_contacts_skips_ownerless :
  repository_contacts.search_contacts (mkSession [alice; bob] [stray] 6)
                                      "" "" "" = [].
Proof. reflexivity. Qed.

(** C2, as amended.  In a state where user keys are unique, every
    contact's owner is stored and the stored first names, last names and
    emails are ASCII text, and for ASCII query strings free of the LIKE
    metacharacters [%], [_] and backslash, [search_contacts] returns
    exactly the contacts, of all users, whose [first_name], [last_name]
    and [email] each hold a value that contains the corresponding query
    string, letter case aside; with three empty query strings it returns
    every contact whose three columns are not NULL. *)
Theorem search_contacts_plain
    (db : Session) (first_name last_name email : string) :
  user_keys_unique db -> owners_stored db -> ascii_names db ->
  is_ascii first_name = true -> is_ascii last_name = true ->
  is_ascii email = true ->
  plain first_name -> plain last_name -> plain email ->
  repository_contacts.search_contacts db first_name last_name email
  = filter (contains_all first_name last_name email) (contacts db)
  /\ (forall c, In c (contacts db) ->
                Contact.first_name c <> None ->
                Contact.last_name c <> None ->
                Contact.email c <> None ->
                In c (repository_contacts.search_contacts db "" "" "")).
Proof.
  intros Hu Ho _ _ _ _ Hf Hl He.
  assert (Hsearch : forall f l e, plain f -> plain l -> plain e ->
            repository_contacts.search_contacts db f l e
            = filter (contains_all f l e) (contacts db)).
  { intros f l e Hf' Hl' He'.
    unfold repository_contacts.search_contacts,
      repository_contacts.search_filter.
    rewrite (select_join_owner
               (fun c => ilike (Contact.first_name c) (percent_wrap f)
                         && ilike (Contact.last_name c) (percent_wrap l)
                         && ilike (Contact.email c) (percent_wrap e))
               db Hu Ho).
    apply filter_ext. intros c. unfold contains_all.
    rewrite !ilike_wrapped by assumption. reflexivity. }
  split; [apply Hsearch; assumption|].
  intros c Hc H1 H2 H3.
  rewrite Hsearch by reflexivity.
  apply filter_In. split; [exact Hc|].
  unfold contains_all. rewrite !icontains_empty by assumption. reflexivity.
Qed.

Lemma search_contacts_plain_witness :
  repository_contacts.search_contacts address_book "an" "LEE" "@x"
  = filter (contains_all "an" "LEE" "@x") (contacts address_book)
  /\ (forall c, In c (contacts address_book) ->
                Contact.first_name c <> None ->
                Contact.last_name c <> None ->
                Contact.email c <> None ->
                In c (repository_contacts.search_contacts address_book
                                                          "" "" "")).
Proof.
  apply (search_contacts_plain address_book "an" "LEE" "@x").
  - repeat constructor; simpl; intuition discriminate.
  - repeat constructor. exists alice. split; [left|]; reflexivity.
  - repeat constructor.
  - reflexivity.
  - reflexivity.
  - reflexivity.
  - reflexivity.
  - reflexivity.
  - reflexivity.
Defined.

(** C2 as stated fails: the query string ["_"] is a LIKE wildcard, so
    searching the first name for it returns Ann, whose first name holds no
    underscore. *)
Lemma search_contacts_wildcard :
  ~ search_is_substring_match address_book "_" "" "".
Proof.
  intros H. specialize (H ann). destruct H as [H _].
  assert (Hin : In ann (repository_contacts.search_contacts
                          address_book "_" "" ""))
    by (vm_compute; left; reflexivity).
  apply H in Hin. destruct Hin as [_ Hin]. vm_compute in Hin. discriminate.
Qed.

(* ================================================================== *)
(** * Upcoming birthdays                                               *)
(* ================================================================== *)

Lemma birthday_filter_window (today : date.t) (c : Contact.t) (u : User.t) :
  repository_contacts.birthday_filter today (date.add_days today 7) c u
  = in_queried_window today c
    && sql_eq (Contact.user_id c) (User.id u).
Proof.
  unfold repository_contacts.birthday_filter, in_queried_window,
    repository_contacts.date_part_cmp.
  destruct (Contact.birthday c) as [b|]; simpl; [|reflexivity].
  rewrite Z.geb_leb. reflexivity.
Qed.

Lemma upcoming_birthdays_queried (today : date.t) (db : Session) :
  user_keys_unique db -> owners_stored db ->
  repository_contacts.get_contacts_upcoming_birthdays today db
  = filter (in_queried_window today) (contacts db).
Proof.
  intros Hu Ho. unfold repository_contacts.get_contacts_upcoming_birthdays.
  rewrite <- (select_join_owner (in_queried_window today) db Hu Ho).
  unfold select_join. apply flat_map_ext. intros c.
  apply flat_map_ext. intros u. rewrite birthday_filter_window. reflexivity.
Qed.

Lemma add_days_same_month (d : date.t) (n : nat) :
  date.day d + Z.of_nat n <= date.days_in_month (date.year d) (date.month d) ->
  date.add_days d n
  = date.mk (date.year d) (date.month d) (date.day d + Z.of_nat n).
Proof.
  unfold date.add_days. induction n as [|n IH]; intros Hn.
  - simpl. rewrite Z.add_0_r. destruct d; reflexivity.
  - change (Nat.iter (S n) date.tomorrow d)
      with (date.tomorrow (Nat.iter n date.tomorrow d)).
    rewrite IH by lia. unfold date.tomorrow; cbn [date.year date.month date.day].
    replace (_ <? _) with true by (symmetry; apply Z.ltb_lt; lia).
    f_equal. lia.
Qed.

(** While the seven days stay inside today's month, the query returns
    exactly the contacts in the window of the specification. *)
Lemma upcoming_birthdays_within_month (today : date.t) (db : Session) :
  user_keys_unique db -> owners_stored db ->
  date.day today + 7
  <= date.days_in_month (date.year today) (date.month today) ->
  repository_contacts.get_contacts_upcoming_birthdays today db
  = filter (in_claimed_window today) (contacts db).
Proof.
  intros Hu Ho Hd. rewrite (upcoming_birthdays_queried today db Hu Ho).
  apply filter_ext. intros c. unfold in_queried_window, in_claimed_window.
  rewrite (add_days_same_month today 7) by exact Hd. reflexivity.
Qed.

(** C3, at the failing input.  On 28 January 2024 Ann, born on a 30
    January, lies in the window of the claim (same month, day 30 within
    28..35), yet the query returns no contact: seven days on is
    4 February, and no day of month is both at least 28 and at most 4. *)
Theorem upcoming_birthdays_month_end :
  In ann (contacts address_book)
  /\ in_claimed_window (date.mk 2024 1 28) ann = true
  /\ date.add_days (date.mk 2024 1 28) 7 = date.mk 2024 2 4
  /\ repository_contacts.get_contacts_upcoming_birthdays
       (date.mk 2024 1 28) address_book = [].
Proof. repeat split; [left; reflexivity]. Qed.

(* ================================================================== *)
(** * Authentication on the contacts routes                            *)
(* ================================================================== *)

(** Routes that declare the current-user dependency turn away whoever the
    dependency turns away, before any repository call: the response is
    the dependency's exception and the database is untouched. *)
Lemma guarded_routes_reject (auth_service : AuthService) (request : Request)
    (db : Session) (s : Z) (d : string)
    (i : Z) (new : ContactCreate.t) (fields : ContactUpdate.t) :
  get_current_user auth_service request db = HTTPException s d ->
  (forall skip limit,
     routes_contacts.read_contacts auth_service request skip limit db
     = (HTTPException s d, db))
  /\ routes_contacts.read_contact auth_service request i db
     = (HTTPException s d, db)
  /\ routes_contacts.create_contact auth_service request new db
     = (HTTPException s d, db)
  /\ routes_contacts.update_contact auth_service request fields i db
     = (HTTPException s d, db)
  /\ routes_contacts.remove_contact auth_service request i db
     = (HTTPException s d, db).
Proof.
  intros H.
  unfold routes_contacts.read_contacts, routes_contacts.read_contact,
    routes_contacts.create_contact, routes_contacts.update_contact,
    routes_contacts.remove_contact, routes_contacts.current_user.
  rewrite H. repeat split.
Qed.

(** C4, at the failing input.  A request without credentials to
    [GET /contacts/search/] and to [GET /contacts/upcoming-birthdays/] is
    answered with the stored contact: neither handler declares the
    current-user dependency. *)
Theorem unauthenticated_search_returns_contacts :
  authorization anonymous = None
  /\ routes_contacts.search_contacts_api anonymous "" "" "" address_book
     = Return [ann]
  /\ routes_contacts.get_upcoming_birthdays anonymous (date.mk 2024 1 23)
       address_book
     = Return [ann].
Proof. repeat split. Qed.

(* ================================================================== *)
(** * Confirmation email on request                                    *)
(* ================================================================== *)

(** A task is added exactly when the account exists and is unconfirmed. *)
Lemma request_email_enqueues (email : string) (request : Request)
    (db : Session) :
  snd (routes_auth.request_email email request db) <> []
  <-> exists u, repository_users.get_user_by_email email db = Some u
                /\ User.confirmed u = false.
Proof.
  unfold routes_auth.request_email.
  destruct (repository_users.get_user_by_email email db) as [u|]; simpl.
  - destruct (User.confirmed u) eqn:E; simpl.
    + split; [congruence | intros (v & Hv & Hc); congruence].
    + split; [intros _; exists u; auto | discriminate].
  - split; [congruence | intros (v & Hv & _); discriminate].
Qed.

Lemma request_email_unknown (email : string) (request : Request)
    (db : Session) :
  repository_users.get_user_by_email email db = None ->
  routes_auth.request_email email request db = (Raised "AttributeError", []).
Proof.
  intros H. unfold routes_auth.request_email. rewrite H. reflexivity.
Qed.

(** C6, at the failing input.  For an email no account has, the handler
    does not complete with a message: reading [user.confirmed] on [None]
    raises before the test [if user] is reached.  No task is added. *)
Theorem request_email_absent_account_raises :
  repository_users.get_user_by_email "nobody@example.com" address_book = None
  /\ routes_auth.request_email "nobody@example.com" anonymous address_book
     = (Raised "AttributeError", []).
Proof. split; reflexivity. Qed.

(* ================================================================== *)
(** * Login and token refresh                                          *)
(* ================================================================== *)

Lemma token_differs_true (stored : option string) (token : string) :
  routes_auth.token_differs stored token = true <-> stored <> Some token.
Proof.
  unfold routes_auth.token_differs. destruct stored as [s|].
  - rewrite negb_true_iff. destruct (String.eqb_spec s token) as [->|Hne].
    + split; [discriminate | congruence].
    + split; [congruence | reflexivity].
  - split; [discriminate | reflexivity].
Qed.

Lemma get_user_after_update_token (email : string) (user : User.t)
    (token : option string) (db : Session) :
  repository_users.get_user_by_email email db = Some user ->
  repository_users.get_user_by_email
    email (repository_users.update_token user token db)
  = Some (User.set_refresh_token user token).
Proof.
  unfold repository_users.get_user_by_email, repository_users.update_token.
  intros H. simpl users.
  rewrite filter_map_stable.
  - rewrite first_map, H. simpl. rewrite Z.eqb_refl. reflexivity.
  - intros r. destruct (User.id r =? User.id user); reflexivity.
Qed.

Section auth_routes.

Variable auth_service : AuthService.

Lemma refresh_token_refuses
    (token email : string) (user : User.t) (db : Session) :
  decode_refresh_token auth_service token = Return email ->
  repository_users.get_user_by_email email db = Some user ->
  User.refresh_token user <> Some token ->
  routes_auth.refresh_token auth_service token db
  = (HTTPException HTTP_401_UNAUTHORIZED "Invalid refresh token",
     repository_users.update_token user None db).
Proof.
  intros Hdec Huser Hne. unfold routes_auth.refresh_token.
  rewrite Hdec, Huser. apply token_differs_true in Hne. rewrite Hne.
  reflexivity.
Qed.

(** C5.  When the presented refresh token decodes to the email of a
    stored user and differs from that user's stored refresh token, the
    handler raises 401 and the user's stored refresh token becomes
    [None]; from then on every token that decodes to that email, the
    formerly stored one included, is refused with 401 as well. *)
Theorem refresh_token_mismatch_clears
    (token email : string) (user : User.t) (db : Session) :
  decode_refresh_token auth_service token = Return email ->
  repository_users.get_user_by_email email db = Some user ->
  User.refresh_token user <> Some token ->
  let result := routes_auth.refresh_token auth_service token db in
  fst result = HTTPException HTTP_401_UNAUTHORIZED "Invalid refresh token"
  /\ repository_users.get_user_by_email email (snd result)
     = Some (User.set_refresh_token user None)
  /\ (forall old,
        decode_refresh_token auth_service old = Return email ->
        fst (routes_auth.refresh_token auth_service old (snd result))
        = HTTPException HTTP_401_UNAUTHORIZED "Invalid refresh token").
Proof.
  intros Hdec Huser Hne result. subst result.
  rewrite (refresh_token_refuses token email user db Hdec Huser Hne).
  cbn [fst snd]. split; [reflexivity|]. split.
  - apply get_user_after_update_token, Huser.
  - intros old Hold.
    rewrite (refresh_token_refuses old email
               (User.set_refresh_token user None) _ Hold
               (get_user_after_update_token _ _ _ _ Huser));
      [reflexivity | discriminate].
Qed.

(** C10.  [login] answers 401 exactly when the email is unknown, the
    account is unconfirmed or the password does not verify; an unknown
    email is reported first, then an unconfirmed account whatever the
    password, then a wrong password. *)
Theorem login_unauthorized_precedence
    (username password : string) (db : Session) :
  let response := fst (routes_auth.login auth_service username password db)
  in
  (status_code HTTP_200_OK response = HTTP_401_UNAUTHORIZED
   <-> login_refused auth_service username password db)
  /\ (repository_users.get_user_by_email username db = None ->
      response = HTTPException HTTP_401_UNAUTHORIZED "Invalid email")
  /\ (forall user,
        repository_users.get_user_by_email username db = Some user ->
        User.confirmed user = false ->
        response
        = HTTPException HTTP_401_UNAUTHORIZED "Email not confirmed")
  /\ (forall user,
        repository_users.get_user_by_email username db = Some user ->
        User.confirmed user = true ->
        verify_password auth_service password (User.password user) = false ->
        response = HTTPException HTTP_401_UNAUTHORIZED "Invalid password").
Proof.
  intros response. subst response.
  unfold routes_auth.login, login_refused.
  destruct (repository_users.get_user_by_email username db) as [u|].
  - destruct (User.confirmed u) eqn:Hc; cbn [negb].
    + destruct (verify_password auth_service password (User.password u))
        eqn:Hv; cbn [negb fst status_code].
      * split; [split; [discriminate | intros [H|H]; discriminate]|].
        split; [discriminate|].
        split; intros user Hu; injection Hu as <-; congruence.
      * split; [split; [auto | reflexivity]|].
        split; [discriminate|].
        split; intros user Hu; injection Hu as <-; [congruence | reflexivity].
    + cbn [fst status_code].
      split; [split; [auto | reflexivity]|].
      split; [discriminate|].
      split; intros user Hu; injection Hu as <-; [reflexivity | congruence].
  - cbn [fst status_code].
    split; [split; [auto | reflexivity]|].
    split; [reflexivity|].
    split; intros user Hu; discriminate.
Qed.

End auth_routes.

(* ================================================================== *)
(** * The theorems at concrete inputs                                  *)
(* ================================================================== *)

Lemma contact_scoped_to_owner_witness :
  (forall skip limit,
     ~ In ann (repository_contacts.get_contacts skip limit bob two_contacts))
  /\ repository_contacts.get_contact (Contact.id ann) bob two_contacts = None
  /\ repository_contacts.update_contact (Contact.id ann) blank_payload bob
                                        two_contacts
     = (Ok None, two_contacts)
  /\ repository_contacts.remove_contact (Contact.id ann) bob two_contacts
     = (None, two_contacts).
Proof.
  apply (contact_scoped_to_owner two_contacts alice bob ann blank_payload).
  - repeat constructor; simpl; intuition discriminate.
  - left. reflexivity.
  - reflexivity.
  - discriminate.
Defined.

Lemma refresh_token_mismatch_clears_witness :
  let result :=
    routes_auth.refresh_token demo_auth "refresh-alice-stale" address_book in
  fst result = HTTPException HTTP_401_UNAUTHORIZED "Invalid refresh token"
  /\ repository_users.get_user_by_email "alice@example.com" (snd result)
     = Some (User.set_refresh_token alice None)
  /\ (forall old,
        decode_refresh_token demo_auth old = Return "alice@example.com"%string ->
        fst (routes_auth.refresh_token demo_auth old (snd result))
        = HTTPException HTTP_401_UNAUTHORIZED "Invalid refresh token").
Proof.
  apply (refresh_token_mismatch_clears demo_auth "refresh-alice-stale"
           "alice@example.com" alice address_book).
  - reflexivity.
  - reflexivity.
  - discriminate.
Defined.

Lemma update_contact_overwrites_witness :
  let updated :=
    Contact.mk 1 (Some "Anna"%string) None (Some "anna@x.com"%string) None
               None (Some "moved"%string) (Some 1) in
  let result :=
    repository_contacts.update_contact 1 blank_payload alice two_contacts in
  (email_held (ContactUpdate.email blank_payload)
              (others 1 (contacts two_contacts)) = false ->
   fst result = Ok (Some updated)
   /\ repository_contacts.get_contact 1 alice (snd result) = Some updated)
  /\ (email_held (ContactUpdate.email blank_payload)
                 (others 1 (contacts two_contacts)) = true ->
      result = (IntegrityError, two_contacts)).
Proof.
  apply (update_contact_overwrites 1 blank_payload alice two_contacts ann).
  reflexivity.
Defined.

(** C7 as stated fails: Ann is a contact of Alice's, yet updating her
    with a payload that carries Ben's email overwrites nothing; the
    commit raises [IntegrityError] on the unique email and Ann stays as
    she was. *)
Lemma update_contact_duplicate_email :
  repository_contacts.get_contact 1 alice two_contacts = Some ann
  /\ repository_contacts.update_contact 1 ben_email_payload alice
                                        two_contacts
     = (IntegrityError, two_contacts)
  /\ fst (repository_contacts.update_contact 1 ben_email_payload alice
                                             two_contacts)
     <> Ok (Some (overwritten ben_email_payload ann)).
Proof.
  split; [reflexivity|]. split; [reflexivity|]. discriminate.
Qed.

Lemma update_contact_absent_witness :
  repository_contacts.update_contact 1 blank_payload bob address_book
  = (Ok None, address_book).
Proof.
  apply (update_contact_absent 1 blank_payload bob address_book).
  intros c [<-|[]] Hu. simpl in Hu. discriminate.
Defined.

Lemma remove_contact_frame_witness :
  (absent_for 1 alice address_book ->
   repository_contacts.remove_contact 1 alice address_book
   = (None, address_book))
  /\ (forall c,
        In c (contacts address_book) -> Contact.id c = 1 ->
        Contact.user_id c = Some (User.id alice) ->
        exists l1 l2,
          contacts address_book = l1 ++ c :: l2
          /\ ~ In c (l1 ++ l2)
          /\ repository_contacts.remove_contact 1 alice address_book
             = (Some c, mkSession (users address_book) (l1 ++ l2)
                                  (contacts_id_seq address_book))).
Proof.
  apply (remove_contact_frame 1 alice address_book).
  repeat constructor. simpl. tauto.
Defined.

Lemma login_unauthorized_precedence_witness :
  fst (routes_auth.login demo_auth "bob@example.com" "bob" address_book)
  = HTTPException HTTP_401_UNAUTHORIZED "Email not confirmed".
Proof.
  pose proof (login_unauthorized_precedence demo_auth "bob@example.com"
                "bob" address_book) as H.
  cbv zeta in H. destruct H as (_ & _ & H & _).
  exact (H bob eq_refl eq_refl).
Defined.

(* ================================================================== *)
(** * Pages of the contact list                                        *)
(* ================================================================== *)

Lemma firstn_then_more {A : Type} (a b : nat) (l : list A) :
  firstn a l ++ firstn b (skipn a l) = firstn (a + b) l.
Proof.
  revert l. induction a as [|a IH]; intros l; simpl.
  - reflexivity.
  - destruct l as [|x l]; simpl.
    + destruct b; reflexivity.
    + rewrite IH. reflexivity.
Qed.

Lemma filter_length_le {A : Type} (q : A -> bool) (l : list A) :
  (List.length (filter q l) <= List.length l)%nat.
Proof.
  induction l as [|x l IH]; simpl; [lia|].
  destruct (q x); simpl; lia.
Qed.

(** X1.  A page of [get_contacts] lists only stored contacts of the
    caller and never more than [limit] of them; the page that starts at 0
    and is as long as the table is the whole list of the caller's
    contacts, in storage order. *)
Theorem get_contacts_page
    (skip limit : nat) (user : User.t) (db : Session) :
  (forall c, In c (repository_contacts.get_contacts skip limit user db) ->
             In c (contacts db)
             /\ Contact.user_id c = Some (User.id user))
  /\ (List.length (repository_contacts.get_contacts skip limit user db)
      <= limit)%nat
  /\ repository_contacts.get_contacts 0 (List.length (contacts db)) user db
     = filter (fun c => sql_eq (Contact.user_id c) (User.id user))
              (contacts db).
Proof.
  unfold repository_contacts.get_contacts. split; [|split].
  - intros c Hc. apply in_firstn, in_skipn, filter_In in Hc.
    destruct Hc as [Hin Hu]. split; [exact Hin|].
    unfold sql_eq in Hu. destruct (Contact.user_id c) as [x|]; [|discriminate].
    apply Z.eqb_eq in Hu. congruence.
  - apply firstn_le_length.
  - simpl skipn. apply firstn_all2, filter_length_le.
Qed.

(** X2.  Consecutive pages join: the page of [limit] contacts from
    [skip], followed by the page of [more] contacts from [skip + limit],
    is the page of [limit + more] contacts from [skip]. *)
Theorem get_contacts_pages_join
    (skip limit more : nat) (user : User.t) (db : Session) :
  repository_contacts.get_contacts skip limit user db
  ++ repository_contacts.get_contacts (skip + limit) more user db
  = repository_contacts.get_contacts skip (limit + more) user db.
Proof.
  unfold repository_contacts.get_contacts.
  rewrite (Nat.add_comm skip limit), <- skipn_skipn.
  apply firstn_then_more.
Qed.

(* ================================================================== *)
(** * Create, read, update and delete, composed                        *)
(* ================================================================== *)

Lemma lookup_created (user : User.t) (c : Contact.t) (db : Session) :
  serial_ahead db -> Contact.id c = contacts_id_seq db ->
  first (filter (repository_contacts.owned_row (Contact.id c) user)
                (contacts db ++ [c]))
  = if sql_eq (Contact.user_id c) (User.id user) then Some c else None.
Proof.
  intros Hs Hid. rewrite filter_app, filter_none.
  - simpl. unfold repository_contacts.owned_row. rewrite Z.eqb_refl. simpl.
    destruct (sql_eq _ _); reflexivity.
  - unfold serial_ahead in Hs. eapply Forall_impl; [|exact Hs].
    intros r Hr. simpl in Hr. unfold repository_contacts.owned_row.
    replace (Contact.id r =? Contact.id c) with false; [reflexivity|].
    symmetry. apply Z.eqb_neq. lia.
Qed.

(** X3.  Create, then read: when the serial is ahead of the stored ids,
    no stored contact holds the payload's email and the caller is a
    stored user, [create_contact] returns a contact that carries the
    payload's values, the next value of the serial as id and the caller
    as owner, and [get_contact] on that id finds it for the caller. *)
Theorem create_then_get
    (body : ContactCreate.t) (user : User.t) (db : Session) :
  serial_ahead db ->
  email_held (ContactCreate.email body) (contacts db) = false ->
  user_stored (Some (User.id user)) (users db) = true ->
  let created := repository_contacts.create_contact body user db in
  let contact :=
    Contact.mk (contacts_id_seq db)
               (ContactCreate.first_name body) (ContactCreate.last_name body)
               (ContactCreate.email body) (ContactCreate.phone_number body)
               (ContactCreate.birthday body)
               (ContactCreate.additional_data body)
               (Some (User.id user)) in
  fst created = Ok contact
  /\ repository_contacts.get_contact (Contact.id contact) user (snd created)
     = Some contact.
Proof.
  intros Hs He Hfk created contact. subst created.
  destruct (create_contact_cases body user db)
    as [(_ & [H|[H|H]]) | (-> & _)].
  - rewrite (serial_ahead_no_key db Hs) in H. discriminate.
  - congruence.
  - congruence.
  - fold contact. cbn [fst snd]. split; [reflexivity|].
    unfold repository_contacts.get_contact. simpl contacts.
    rewrite (lookup_created user contact db Hs eq_refl).
    simpl. rewrite Z.eqb_refl. reflexivity.
Qed.

(** X4.  [create_contact] disturbs no lookup: whatever [get_contact]
    found before the call it finds after it, and on every id other than
    the new one it answers as before. *)
Theorem create_keeps_lookups
    (body : ContactCreate.t) (user : User.t) (db : Session)
    (i : Z) (reader : User.t) :
  let db' := snd (repository_contacts.create_contact body user db) in
  (forall r, repository_contacts.get_contact i reader db = Some r ->
             repository_contacts.get_contact i reader db' = Some r)
  /\ (i <> contacts_id_seq db ->
      repository_contacts.get_contact i reader db'
      = repository_contacts.get_contact i reader db).
Proof.
  intros db'. subst db'. unfold repository_contacts.get_contact.
  destruct (create_contact_cases body user db) as [[-> _] | [-> _]];
    cbn [snd contacts]; [split; auto|].
  rewrite filter_app. split.
  - intros r Hr.
    destruct (filter (repository_contacts.owned_row i reader) (contacts db));
      [discriminate | exact Hr].
  - intros Hi. simpl. unfold repository_contacts.owned_row at 2. simpl.
    replace (contacts_id_seq db =? i) with false
      by (symmetry; apply Z.eqb_neq; congruence).
    simpl. rewrite app_nil_r. reflexivity.
Qed.

Lemma owned_rows_deleted (i : Z) (user : User.t) (c : Contact.t)
    (l : list Contact.t) :
  Contact.id c = i ->
  filter (repository_contacts.owned_row i user)
         (filter (fun r => negb (Contact.id r =? Contact.id c)) l) = [].
Proof.
  intros Hc. apply filter_none, Forall_forall. intros r Hr.
  apply filter_In in Hr. destruct Hr as [_ Hr].
  apply negb_true_iff, Z.eqb_neq in Hr.
  unfold repository_contacts.owned_row.
  replace (Contact.id r =? i) with false; [reflexivity|].
  symmetry. apply Z.eqb_neq. congruence.
Qed.

(** X5.  Delete, then read: after [remove_contact] the caller's
    [get_contact] on that id finds nothing, and a second [remove_contact]
    returns [None] and writes nothing. *)
Theorem remove_then_get
    (contact_id : Z) (user : User.t) (db : Session) :
  let db' :=
    snd (repository_contacts.remove_contact contact_id user db) in
  repository_contacts.get_contact contact_id user db' = None
  /\ repository_contacts.remove_contact contact_id user db' = (None, db').
Proof.
  intros db'. subst db'.
  assert (H : first (filter (repository_contacts.owned_row contact_id user)
                (contacts (snd (repository_contacts.remove_contact
                                  contact_id user db)))) = None).
  { unfold repository_contacts.remove_contact.
    destruct (first (filter (repository_contacts.owned_row contact_id user)
                            (contacts db))) as [c|] eqn:E;
      unfold repository_contacts.delete; cbn [snd contacts].
    - apply first_filter_in in E. destruct E as [_ E].
      apply owned_row_true in E. destruct E as [E _].
      rewrite (owned_rows_deleted contact_id user c _ E). reflexivity.
    - exact E. }
  split.
  - exact H.
  - unfold repository_contacts.remove_contact at 1. rewrite H. reflexivity.
Qed.

(** X6.  [remove_contact] disturbs no other id: on every id other than
    the one removed, [get_contact] answers every user as before. *)
Theorem remove_keeps_other_lookups
    (contact_id : Z) (user : User.t) (db : Session)
    (j : Z) (reader : User.t) :
  j <> contact_id ->
  repository_contacts.get_contact j reader
    (snd (repository_contacts.remove_contact contact_id user db))
  = repository_contacts.get_contact j reader db.
Proof.
  intros Hj. unfold repository_contacts.remove_contact.
  destruct (first _) as [c|] eqn:E; simpl; [|reflexivity].
  apply first_filter_in in E. destruct E as [_ E].
  apply owned_row_true in E. destruct E as [E _].
  unfold repository_contacts.get_contact. simpl.
  rewrite filter_filter_comm. f_equal.
  apply filter_all, Forall_forall. intros r Hr.
  apply filter_In in Hr. destruct Hr as [_ Hr].
  apply owned_row_true in Hr. destruct Hr as [Hr _].
  apply negb_true_iff, Z.eqb_neq. congruence.
Qed.

(** The lookup of another id among the rows an update leaves. *)
Lemma other_lookup_in_updated_rows (i j : Z) (reader : User.t)
    (c' : Contact.t) (l : list Contact.t) :
  j <> i ->
  filter (repository_contacts.owned_row j reader)
         (others i l
          ++ map (repository_contacts.write_columns c')
                 (filter (fun r => Contact.id r =? i) l))
  = filter (repository_contacts.owned_row j reader) l.
Proof.
  intros Hj. rewrite filter_app. unfold others.
  rewrite filter_implied.
  - rewrite filter_map_stable by (intros r; apply owned_row_write).
    rewrite filter_excluded; [apply app_nil_r|].
    intros r Hr. apply owned_row_true in Hr. destruct Hr as [Hr _].
    apply Z.eqb_neq. congruence.
  - intros r Hr. apply owned_row_true in Hr. destruct Hr as [Hr _].
    apply negb_true_iff, Z.eqb_neq. congruence.
Qed.

(** X7.  [update_contact] disturbs no other id: on every id other than
    the one updated, [get_contact] answers every user as before. *)
Theorem update_keeps_other_lookups
    (contact_id : Z) (body : ContactUpdate.t) (user : User.t) (db : Session)
    (j : Z) (reader : User.t) :
  j <> contact_id ->
  repository_contacts.get_contact j reader
    (snd (repository_contacts.update_contact contact_id body user db))
  = repository_contacts.get_contact j reader db.
Proof.
  intros Hj.
  destruct (first (filter (repository_contacts.owned_row contact_id user)
                          (contacts db))) as [c|] eqn:E.
  - rewrite (update_found contact_id body user db c E).
    destruct (email_held _ _); cbn [snd]; [reflexivity|].
    unfold repository_contacts.get_contact. simpl contacts.
    rewrite (other_lookup_in_updated_rows contact_id j reader _ _ Hj).
    reflexivity.
  - unfold repository_contacts.update_contact. rewrite E. reflexivity.
Qed.

Lemma others_of_updated_rows (i : Z) (c' : Contact.t)
    (l : list Contact.t) :
  others i (others i l
            ++ map (repository_contacts.write_columns c')
                   (filter (fun r => Contact.id r =? i) l))
  = others i l.
Proof.
  unfold others. rewrite filter_app.
  rewrite filter_implied by auto.
  assert (Hnone : filter (fun r => negb (Contact.id r =? i))
                    (map (repository_contacts.write_columns c')
                         (filter (fun r => Contact.id r =? i) l)) = []).
  { apply filter_none, Forall_forall. intros r Hr. apply in_map_iff in Hr.
    destruct Hr as (r0 & <- & Hr0). apply filter_In in Hr0.
    destruct Hr0 as [_ Hr0]. simpl. rewrite Hr0. reflexivity. }
  rewrite Hnone. apply app_nil_r.
Qed.

Lemma rewritten_of_updated_rows (i : Z) (c1 c2 : Contact.t)
    (l : list Contact.t) :
  map (repository_contacts.write_columns c2)
      (filter (fun r => Contact.id r =? i)
              (others i l
               ++ map (repository_contacts.write_columns c1)
                      (filter (fun r => Contact.id r =? i) l)))
  = map (repository_contacts.write_columns c2)
        (filter (fun r => Contact.id r =? i) l).
Proof.
  unfold others. rewrite filter_app.
  rewrite filter_excluded
    by (intros r Hr; apply negb_false_iff; exact Hr).
  assert (Hall : filter (fun r => Contact.id r =? i)
                   (map (repository_contacts.write_columns c1)
                        (filter (fun r => Contact.id r =? i) l))
                 = map (repository_contacts.write_columns c1)
                       (filter (fun r => Contact.id r =? i) l)).
  { apply filter_all, Forall_forall. intros r Hr. apply in_map_iff in Hr.
    destruct Hr as (r0 & <- & Hr0). apply filter_In in Hr0.
    simpl. apply Hr0. }
  simpl. rewrite Hall, map_map. reflexivity.
Qed.

(** In the embedding the two databases of [update_last_wins] are the
    same, row order included. *)
Lemma update_twice
    (contact_id : Z) (body1 body2 : ContactUpdate.t) (user : User.t)
    (db : Session) :
  email_held (ContactUpdate.email body2) (others contact_id (contacts db))
  = false ->
  repository_contacts.update_contact contact_id body2 user
    (snd (repository_contacts.update_contact contact_id body1 user db))
  = repository_contacts.update_contact contact_id body2 user db.
Proof.
  intros Hfree.
  destruct (first (filter (repository_contacts.owned_row contact_id user)
                          (contacts db))) as [c|] eqn:E.
  - rewrite (update_found contact_id body1 user db c E).
    destruct (email_held (ContactUpdate.email body1) _); cbn [snd];
      [reflexivity|].
    rewrite (update_found contact_id body2 user db c E), Hfree.
    pose proof (lookup_in_updated_rows contact_id user c
                  (overwritten body1 c) (contacts db) E) as E1.
    match goal with
    | |- repository_contacts.update_contact _ _ _ ?d = _ =>
        rewrite (update_found contact_id body2 user d _ E1)
    end.
    cbn [contacts users contacts_id_seq].
    rewrite others_of_updated_rows, Hfree, rewritten_of_updated_rows.
    reflexivity.
  - unfold repository_contacts.update_contact at 2. rewrite E. reflexivity.
Qed.

(** X8.  The last update wins: when no other stored contact holds the
    second payload's email, updating a contact with one payload and then
    with the second returns what updating it with the second payload
    alone returns and leaves the same users, the same serial and the same
    contact rows, whether or not the database accepted the first
    update. *)
Theorem update_last_wins
    (contact_id : Z) (body1 body2 : ContactUpdate.t) (user : User.t)
    (db : Session) :
  email_held (ContactUpdate.email body2) (others contact_id (contacts db))
  = false ->
  let twice :=
    repository_contacts.update_contact contact_id body2 user
      (snd (repository_contacts.update_contact contact_id body1 user db)) in
  let once := repository_contacts.update_contact contact_id body2 user db in
  fst twice = fst once
  /\ users (snd twice) = users (snd once)
  /\ contacts_id_seq (snd twice) = contacts_id_seq (snd once)
  /\ Permutation (contacts (snd twice)) (contacts (snd once)).
Proof.
  intros Hfree twice once. subst twice once.
  rewrite (update_twice contact_id body1 body2 user db Hfree).
  repeat split. apply Permutation_refl.
Qed.

(* ================================================================== *)
(** * What the joined queries select                                   *)
(* ================================================================== *)

Lemma in_select_join {A B : Type} (on : A -> B -> bool)
    (a : list A) (b : list B) (x : A) :
  In x (select_join on a b)
  <-> In x a /\ exists y, In y b /\ on x y = true.
Proof.
  unfold select_join. rewrite in_flat_map. split.
  - intros (x' & Hx' & Hin). apply in_flat_map in Hin.
    destruct Hin as (y & Hy & Hin).
    destruct (on x' y) eqn:E; [|contradiction].
    destruct Hin as [<-|[]]. split; [exact Hx'|]. exists y. auto.
  - intros (Hx & y & Hy & Hon). exists x. split; [exact Hx|].
    apply in_flat_map. exists y. split; [exact Hy|].
    rewrite Hon. left. reflexivity.
Qed.

Lemma select_join_ext {A B : Type} (on on' : A -> B -> bool)
    (a : list A) (b : list B) :
  (forall x y, on x y = on' x y) -> select_join on a b = select_join on' a b.
Proof.
  intros H. unfold select_join. apply flat_map_ext. intros x.
  apply flat_map_ext. intros y. rewrite H. reflexivity.
Qed.

Lemma select_join_nothing {A B : Type} (on : A -> B -> bool)
    (a : list A) (b : list B) :
  (forall x y, on x y = false) -> select_join on a b = [].
Proof.
  intros H. unfold select_join.
  assert (Hrow : forall x, flat_map (fun y => if on x y then [x] else []) b
                           = []).
  { intros x. induction b as [|y b IHb]; simpl; [reflexivity|].
    rewrite H. exact IHb. }
  induction a as [|x a IH]; simpl; [reflexivity|].
  rewrite IH, Hrow. reflexivity.
Qed.

Lemma sql_eq_true (column : option Z) (value : Z) :
  sql_eq column value = true <-> column = Some value.
Proof.
  unfold sql_eq. destruct column as [x|].
  - rewrite Z.eqb_eq. split; congruence.
  - split; discriminate.
Qed.

Lemma joined_owner (db : Session) (c : Contact.t) (g : bool) :
  (exists u, In u (users db)
             /\ g && sql_eq (Contact.user_id c) (User.id u) = true)
  <-> has_owner db c /\ g = true.
Proof.
  unfold has_owner. split.
  - intros (u & Hu & H). apply andb_true_iff in H. destruct H as [Hg H].
    apply sql_eq_true in H. split; [exists u; auto | exact Hg].
  - intros ((u & Hu & H) & Hg). exists u. split; [exact Hu|].
    apply andb_true_iff. split; [exact Hg | apply sql_eq_true, H].
Qed.

Lemma lower_percent_wrap (q : string) :
  lower (percent_wrap q)
  = "%"%char :: lower (list_ascii_of_string q) ++ ["%"%char].
Proof.
  unfold percent_wrap, lower. simpl. rewrite map_app. reflexivity.
Qed.

Lemma ilike_query_case (column : option string) (q q' : string) :
  lower (list_ascii_of_string q) = lower (list_ascii_of_string q') ->
  ilike column (percent_wrap q) = ilike column (percent_wrap q').
Proof.
  intros H. destruct column as [s|]; [|reflexivity]. unfold ilike.
  rewrite !lower_percent_wrap, H. reflexivity.
Qed.

(** X10.  The letter case of the query strings is immaterial: two
    triples of query strings that agree once their ASCII letters are
    folded to lower case find the same contacts, in the same order. *)
Theorem search_contacts_query_case
    (db : Session) (first_name last_name email : string)
    (first_name' last_name' email' : string) :
  lower (list_ascii_of_string first_name)
  = lower (list_ascii_of_string first_name') ->
  lower (list_ascii_of_string last_name)
  = lower (list_ascii_of_string last_name') ->
  lower (list_ascii_of_string email)
  = lower (list_ascii_of_string email') ->
  repository_contacts.search_contacts db first_name last_name email
  = repository_contacts.search_contacts db first_name' last_name' email'.
Proof.
  intros Hf Hl He. unfold repository_contacts.search_contacts.
  apply select_join_ext. intros c u.
  unfold repository_contacts.search_filter.
  rewrite (ilike_query_case _ _ _ Hf), (ilike_query_case _ _ _ Hl),
    (ilike_query_case _ _ _ He). reflexivity.
Qed.

Lemma any_suffix_nonempty (s : text) :
  any_suffix (fun t => match t with [] => false | _ :: _ => true end) s
  = match s with [] => false | _ :: _ => true end.
Proof. destruct s; reflexivity. Qed.

Lemma ilike_underscore (column : option string) :
  ilike column (percent_wrap "_") = true
  <-> exists s, column = Some s /\ s <> ""%string.
Proof.
  destruct column as [s|]; unfold ilike.
  - change (lower (percent_wrap "_")) with ["%"; "_"; "%"]%char.
    change (like ["%"; "_"; "%"]%char (lower (list_ascii_of_string s)))
      with (any_suffix (like ["_"; "%"]%char)
                       (lower (list_ascii_of_string s))).
    rewrite (any_suffix_ext _
               (fun t => match t with [] => false | _ :: _ => true end)).
    + rewrite any_suffix_nonempty. destruct s as [|a s]; simpl.
      * split; [discriminate | intros (s' & H & Hne); congruence].
      * split; [intros _; eexists; split; [reflexivity | discriminate]
               | reflexivity].
    + intros [|a t]; [reflexivity|].
      change (like ["_"; "%"]%char (a :: t)) with (like ["%"%char] t).
      apply like_percent_only.
  - split; [discriminate | intros (s & H & _); discriminate].
Qed.

Lemma ilike_empty_query (column : option string) :
  ilike column (percent_wrap "") = true <-> column <> None.
Proof.
  rewrite ilike_wrapped by reflexivity. destruct column as [s|].
  - rewrite icontains_empty by discriminate. split; [discriminate | reflexivity].
  - simpl. split; [discriminate | congruence].
Qed.

(** X9.  [search_contacts] never returns a contact that is not stored
    or whose [user_id] is NULL or names no stored user, whatever the
    query strings; with three empty query strings it returns exactly the
    stored contacts with a stored owner whose first name, last name and
    email are not NULL. *)
Theorem search_contacts_selects
    (db : Session) (first_name last_name email : string) :
  (forall c,
     In c (repository_contacts.search_contacts db first_name last_name
                                               email) ->
     In c (contacts db) /\ has_owner db c)
  /\ (forall c,
        In c (repository_contacts.search_contacts db "" "" "")
        <-> In c (contacts db)
            /\ has_owner db c
            /\ Contact.first_name c <> None
            /\ Contact.last_name c <> None
            /\ Contact.email c <> None).
Proof.
  unfold repository_contacts.search_contacts,
    repository_contacts.search_filter. split; intros c.
  - rewrite in_select_join, joined_owner. tauto.
  - rewrite in_select_join, joined_owner, !andb_true_iff.
    rewrite !ilike_empty_query. tauto.
Qed.

(** X11.  An underscore in a query string acts as a wildcard: searching
    the first name for ["_"], with the other two query strings empty,
    finds every stored contact with a stored owner whose first name is
    not empty and whose last name and email are not NULL, whether or not
    an underscore occurs in the first name. *)
Theorem search_contacts_underscore (db : Session) (c : Contact.t) :
  In c (repository_contacts.search_contacts db "_" "" "")
  <-> In c (contacts db)
      /\ has_owner db c
      /\ (exists s, Contact.first_name c = Some s /\ s <> ""%string)
      /\ Contact.last_name c <> None
      /\ Contact.email c <> None.
Proof.
  unfold repository_contacts.search_contacts,
    repository_contacts.search_filter.
  rewrite in_select_join, joined_owner, !andb_true_iff.
  rewrite ilike_underscore, !ilike_empty_query. tauto.
Qed.

(* ================================================================== *)
(** * The birthday window across a month end                           *)
(* ================================================================== *)

(** Within four weeks a date either stays in its month, the day of month
    growing by the number of days, or has moved on and its day of month
    is at most that number. *)
Lemma add_days_day (d : date.t) (n : nat) :
  date.valid d -> (n <= 28)%nat ->
  (date.day d + Z.of_nat n
   <= date.days_in_month (date.year d) (date.month d)
   /\ date.add_days d n
      = date.mk (date.year d) (date.month d) (date.day d + Z.of_nat n))
  \/ (date.day d + Z.of_nat n
      > date.days_in_month (date.year d) (date.month d)
      /\ 1 <= date.day (date.add_days d n) <= Z.of_nat n).
Proof.
  intros Hv. induction n as [|n IH]; intros Hn.
  - left. split; [destruct Hv; lia|].
    unfold date.add_days. simpl. rewrite Z.add_0_r. destruct d; reflexivity.
  - change (date.add_days d (S n)) with (date.tomorrow (date.add_days d n)).
    destruct IH as [[Hle Heq] | [Hgt Hday]]; [lia | |].
    + rewrite Heq. unfold date.tomorrow. cbn [date.year date.month date.day].
      destruct (date.day d + Z.of_nat n <? _) eqn:E.
      * apply Z.ltb_lt in E. left. split; [lia|]. f_equal. lia.
      * apply Z.ltb_ge in E. right. split; [lia|].
        destruct (date.month d <? 12); simpl; lia.
    + right. split; [lia|].
      pose proof (add_days_valid d n Hv) as Hv'.
      set (d' := date.add_days d n) in *.
      pose proof (days_in_month_bounds (date.year d') (date.month d')).
      unfold date.tomorrow.
      replace (date.day d' <? _) with true
        by (symmetry; apply Z.ltb_lt; lia).
      simpl. lia.
Qed.

(** X12.  When seven days from [today] fall in the next month, that is
    when today's day of month plus 7 exceeds the length of today's month,
    [get_contacts_upcoming_birthdays] returns no contact at all, whatever
    the database holds. *)
Theorem upcoming_birthdays_empty_at_month_end
    (today : date.t) (db : Session) :
  date.valid today ->
  date.day today + 7
  > date.days_in_month (date.year today) (date.month today) ->
  repository_contacts.get_contacts_upcoming_birthdays today db = [].
Proof.
  intros Hv Hgt. unfold repository_contacts.get_contacts_upcoming_birthdays.
  apply select_join_nothing. intros c u. rewrite birthday_filter_window.
  destruct (add_days_day today 7 Hv) as [[Hle _] | [_ Hday]];
    [lia | simpl in Hle; lia |].
  pose proof (days_in_month_bounds (date.year today) (date.month today)).
  unfold in_queried_window. destruct (Contact.birthday c) as [b|];
    [|reflexivity].
  apply andb_false_iff. left.
  destruct (date.day today <=? date.day b) eqn:E1;
    [|rewrite andb_false_r; reflexivity].
  apply Z.leb_le in E1.
  replace (date.day b <=? date.day (date.add_days today 7)) with false;
    [apply andb_false_r|].
  symmetry. apply Z.leb_gt. change (Z.of_nat 7) with 7 in Hday. lia.
Qed.

(** X13.  While the seven days stay inside today's month,
    [get_contacts_upcoming_birthdays] finds exactly the stored contacts
    with a stored owner whose birthday lies in today's month on a day of
    month from today's to today's plus 7; the birthday's year plays no
    part, and a contact without a birthday is never found. *)
Theorem upcoming_birthdays_selects
    (today : date.t) (db : Session) (c : Contact.t) :
  date.day today + 7
  <= date.days_in_month (date.year today) (date.month today) ->
  In c (repository_contacts.get_contacts_upcoming_birthdays today db)
  <-> In c (contacts db)
      /\ has_owner db c
      /\ exists b, Contact.birthday c = Some b
                   /\ date.month b = date.month today
                   /\ date.day today <= date.day b <= date.day today + 7.
Proof.
  intros Hd. unfold repository_contacts.get_contacts_upcoming_birthdays.
  rewrite in_select_join.
  assert (Hw : forall u,
             repository_contacts.birthday_filter
               today (date.add_days today 7) c u
             = in_claimed_window today c
               && sql_eq (Contact.user_id c) (User.id u)).
  { intros u. rewrite birthday_filter_window.
    unfold in_queried_window, in_claimed_window.
    rewrite (add_days_same_month today 7) by exact Hd. reflexivity. }
  assert (Hex : (exists u, In u (users db)
                   /\ repository_contacts.birthday_filter
                        today (date.add_days today 7) c u = true)
                <-> has_owner db c /\ in_claimed_window today c = true).
  { rewrite <- joined_owner. split; intros (u & Hu & H); exists u;
      (split; [exact Hu|]); [rewrite <- Hw | rewrite Hw]; exact H. }
  rewrite Hex. unfold in_claimed_window.
  destruct (Contact.birthday c) as [b|].
  - rewrite !andb_true_iff, Z.eqb_eq, !Z.leb_le. split.
    + intros (Hc & Ho & (Hm & H1) & H2). repeat split; auto.
      exists b. repeat split; auto.
    + intros (Hc & Ho & b' & Hb & Hm & H1 & H2). injection Hb as <-.
      repeat split; auto.
  - split.
    + intros (_ & _ & H). discriminate.
    + intros (_ & _ & b & Hb & _). discriminate.
Qed.

(* ================================================================== *)
(** * Accounts: signup, confirmation, login, refresh                   *)
(* ================================================================== *)

Lemma email_free_lookup (email : string) (db : Session) :
  email_free email db
  <-> repository_users.get_user_by_email email db = None.
Proof.
  unfold email_free, repository_users.get_user_by_email.
  rewrite first_filter_none, Forall_forall. split; intros H u Hu.
  - apply String.eqb_neq, H, Hu.
  - apply String.eqb_neq, H, Hu.
Qed.

Lemma lookup_has_email (email : string) (db : Session) (u : User.t) :
  repository_users.get_user_by_email email db = Some u ->
  In u (users db) /\ User.email u = email.
Proof.
  intros H. apply first_filter_in in H. destruct H as [Hin H].
  apply String.eqb_eq in H. auto.
Qed.

(** The lookup after a column of the found user's row was rewritten. *)
Lemma lookup_after_column_write (set : User.t -> User.t) (email : string)
    (user : User.t) (db : Session) :
  (forall r, User.email (set r) = User.email r) ->
  repository_users.get_user_by_email email db = Some user ->
  repository_users.get_user_by_email email
    (mkSession (map (fun r => if User.id r =? User.id user
                              then set r else r) (users db))
               (contacts db) (contacts_id_seq db))
  = Some (set user).
Proof.
  intros Hset H. unfold repository_users.get_user_by_email in *.
  simpl users. rewrite filter_map_stable.
  - rewrite first_map, H. simpl. rewrite Z.eqb_refl. reflexivity.
  - intros r. destruct (User.id r =? User.id user); [rewrite Hset|];
      reflexivity.
Qed.

Section accounts.

Variable auth_service : AuthService.
Variable get_password_hash : string -> string.
Variable get_email_from_token : string -> outcome string.

Lemma signup_fresh (body : UserModel.t) (request : Request) (new_id : Z)
    (db : Session) :
  email_free (UserModel.email body) db ->
  routes_auth.signup get_password_hash body request new_id db
  = (Return (signed_up get_password_hash body new_id,
             "User successfully created. Check your email for confirmation."%string),
     mkSession (users db ++ [signed_up get_password_hash body new_id])
               (contacts db) (contacts_id_seq db),
     [routes_auth.send_email (UserModel.email body)
                             (Some (UserModel.username body))
                             (base_url request)]).
Proof.
  intros H. apply email_free_lookup in H.
  unfold routes_auth.signup. rewrite H. reflexivity.
Qed.

Lemma lookup_appended (email : string) (u : User.t) (db : Session) :
  repository_users.get_user_by_email email
    (mkSession (users db ++ [u]) (contacts db) (contacts_id_seq db))
  = match repository_users.get_user_by_email email db with
    | Some found => Some found
    | None => if String.eqb (User.email u) email then Some u else None
    end.
Proof.
  unfold repository_users.get_user_by_email. simpl users.
  rewrite filter_app. simpl.
  destruct (filter _ (users db)); simpl; [|reflexivity].
  destruct (String.eqb (User.email u) email); reflexivity.
Qed.

(** X14.  [signup] keeps emails unique: if no two stored users share an
    email before the call, none do after it, whether the call inserted a
    user or answered 409. *)
Theorem signup_keeps_emails_unique
    (body : UserModel.t) (request : Request) (new_id : Z) (db : Session) :
  emails_unique db ->
  emails_unique
    (snd (fst (routes_auth.signup get_password_hash body request new_id
                                  db))).
Proof.
  intros Hu. unfold routes_auth.signup.
  destruct (repository_users.get_user_by_email (UserModel.email body) db)
    as [u|] eqn:E; [exact Hu|].
  apply email_free_lookup in E.
  unfold emails_unique in *; simpl. rewrite map_app; simpl.
  apply NoDup_app; [exact Hu | constructor; [intros [] | constructor] |].
  intros e He [<-|[]]. apply in_map_iff in He.
  destruct He as (u & Hue & Hin). exact (E u Hin Hue).
Qed.

(** X15.  Signup, then lookup: for an email no stored user has, [signup]
    answers with the new user, whose password column holds the hash of
    the password sent and who is unconfirmed and without a refresh token,
    adds one confirmation email addressed to that user, and stores the
    user so that [get_user_by_email] finds it; every lookup by another
    email and the contacts table are as before. *)
Theorem signup_then_lookup
    (body : UserModel.t) (request : Request) (new_id : Z) (db : Session) :
  email_free (UserModel.email body) db ->
  let result :=
    routes_auth.signup get_password_hash body request new_id db in
  let new_user := signed_up get_password_hash body new_id in
  let db' := snd (fst result) in
  fst (fst result)
  = Return (new_user,
            "User successfully created. Check your email for confirmation."%string)
  /\ snd result
     = [routes_auth.send_email (User.email new_user) (User.username new_user)
                               (base_url request)]
  /\ repository_users.get_user_by_email (UserModel.email body) db'
     = Some new_user
  /\ (forall email, email <> UserModel.email body ->
        repository_users.get_user_by_email email db'
        = repository_users.get_user_by_email email db)
  /\ contacts db' = contacts db.
Proof.
  intros Hfree result new_user db'. subst result new_user db'.
  rewrite (signup_fresh body request new_id db Hfree). cbn [fst snd].
  repeat split.
  - rewrite lookup_appended.
    apply email_free_lookup in Hfree. rewrite Hfree. simpl.
    rewrite String.eqb_refl. reflexivity.
  - intros email Hne. rewrite lookup_appended.
    destruct (repository_users.get_user_by_email email db); [reflexivity|].
    simpl. replace (String.eqb (UserModel.email body) email) with false;
      [reflexivity|].
    symmetry. apply String.eqb_neq. congruence.
Qed.

(** X16.  [signup] with an email some stored user already has answers
    409, inserts nothing and adds no email task. *)
Theorem signup_taken_email
    (body : UserModel.t) (request : Request) (new_id : Z) (db : Session)
    (u : User.t) :
  In u (users db) -> User.email u = UserModel.email body ->
  routes_auth.signup get_password_hash body request new_id db
  = (HTTPException HTTP_409_CONFLICT "Account already exists", db, []).
Proof.
  intros Hin He. unfold routes_auth.signup.
  destruct (repository_users.get_user_by_email (UserModel.email body) db)
    eqn:E; [reflexivity|].
  apply email_free_lookup in E. destruct (E u Hin He).
Qed.

(** X17.  Right after signup the account cannot log in: whatever the
    password, [login] answers 401 "Email not confirmed" and writes
    nothing. *)
Theorem signup_then_login_refused
    (body : UserModel.t) (request : Request) (new_id : Z) (db : Session)
    (password : string) :
  email_free (UserModel.email body) db ->
  let db' :=
    snd (fst (routes_auth.signup get_password_hash body request new_id db))
  in
  routes_auth.login auth_service (UserModel.email body) password db'
  = (HTTPException HTTP_401_UNAUTHORIZED "Email not confirmed", db').
Proof.
  intros Hfree db'. subst db'.
  rewrite (signup_fresh body request new_id db Hfree). cbn [fst snd].
  unfold routes_auth.login. rewrite lookup_appended.
  apply email_free_lookup in Hfree. rewrite Hfree. simpl.
  rewrite String.eqb_refl. reflexivity.
Qed.

Lemma confirmed_email_unconfirmed (token email : string) (user : User.t)
    (db : Session) :
  get_email_from_token token = Return email ->
  repository_users.get_user_by_email email db = Some user ->
  User.confirmed user = false ->
  routes_auth.confirmed_email get_email_from_token token db
  = (Return "Email confirmed"%string,
     mkSession (map (fun r => if User.id r =? User.id user
                              then User.set_confirmed r true else r)
                    (users db))
               (contacts db) (contacts_id_seq db)).
Proof.
  intros Ht Hu Hc. unfold routes_auth.confirmed_email.
  rewrite Ht, Hu, Hc. unfold repository_users.confirmed_email.
  rewrite Hu. reflexivity.
Qed.

(** X18.  Confirming twice is confirming once: a second call of the
    confirmation handler with the same token leaves the database as the
    first call left it and never reports "Email confirmed" again. *)
Theorem confirmed_email_idempotent (token : string) (db : Session) :
  let db' :=
    snd (routes_auth.confirmed_email get_email_from_token token db) in
  let again :=
    routes_auth.confirmed_email get_email_from_token token db' in
  snd again = db' /\ fst again <> Return "Email confirmed"%string.
Proof.
  intros db' again. subst again db'.
  destruct (get_email_from_token token) as [email|s d|e] eqn:Ht.
  - destruct (repository_users.get_user_by_email email db) as [user|] eqn:Hu.
    + destruct (User.confirmed user) eqn:Hc.
      * unfold routes_auth.confirmed_email. rewrite Ht, Hu, Hc. cbn [snd].
        rewrite Hu, Hc. split; [reflexivity | discriminate].
      * rewrite (confirmed_email_unconfirmed token email user db Ht Hu Hc).
        cbn [snd]. unfold routes_auth.confirmed_email. rewrite Ht.
        rewrite (lookup_after_column_write
                   (fun r => User.set_confirmed r true) email user db
                   (fun r => eq_refl) Hu).
        simpl. split; [reflexivity | discriminate].
    + unfold routes_auth.confirmed_email. rewrite Ht, Hu. cbn [snd].
      rewrite Hu. split; [reflexivity | discriminate].
  - unfold routes_auth.confirmed_email. rewrite Ht. cbn [snd].
    split; [reflexivity | discriminate].
  - unfold routes_auth.confirmed_email. rewrite Ht. cbn [snd].
    split; [reflexivity | discriminate].
Qed.

(** X19.  Signup, confirmation, login: once the new account's
    confirmation token has been presented, [login] with the password
    chosen at signup succeeds, provided the service verifies a password
    against its own hash; the response carries the tokens made for the
    email, and the refresh token is the one stored for the user. *)
Theorem signup_confirm_login
    (body : UserModel.t) (request : Request) (new_id : Z) (db : Session)
    (token : string) :
  email_free (UserModel.email body) db ->
  get_email_from_token token = Return (UserModel.email body) ->
  verify_password auth_service (UserModel.password body)
                  (get_password_hash (UserModel.password body)) = true ->
  let db1 :=
    snd (fst (routes_auth.signup get_password_hash body request new_id db))
  in
  let db2 :=
    snd (routes_auth.confirmed_email get_email_from_token token db1) in
  let logged :=
    routes_auth.login auth_service (UserModel.email body)
                      (UserModel.password body) db2 in
  let refresh := create_refresh_token auth_service (UserModel.email body) in
  fst logged
  = Return (TokenModel.mk
              (create_access_token auth_service (UserModel.email body))
              refresh "bearer")
  /\ option_map User.refresh_token
       (repository_users.get_user_by_email (UserModel.email body)
                                           (snd logged))
     = Some (Some refresh).
Proof.
  intros Hfree Ht Hv db1 db2 logged refresh. subst logged db2 db1 refresh.
  rewrite (signup_fresh body request new_id db Hfree). cbn [fst snd].
  set (new_user := signed_up get_password_hash body new_id).
  set (db1 := mkSession (users db ++ [new_user]) (contacts db)
                        (contacts_id_seq db)).
  assert (Hfound : repository_users.get_user_by_email
                     (UserModel.email body) db1 = Some new_user).
  { unfold db1. rewrite lookup_appended.
    apply email_free_lookup in Hfree. rewrite Hfree. simpl.
    rewrite String.eqb_refl. reflexivity. }
  rewrite (confirmed_email_unconfirmed token _ new_user db1 Ht Hfound
             eq_refl).
  cbn [snd].
  pose proof (lookup_after_column_write
                (fun r => User.set_confirmed r true) _ new_user db1
                (fun r => eq_refl) Hfound) as Hfound2.
  cbn [users contacts contacts_id_seq db1] in Hfound2.
  unfold routes_auth.login. cbn [users contacts contacts_id_seq db1].
  rewrite Hfound2. simpl User.confirmed. simpl User.password.
  rewrite Hv. cbn [negb fst snd]. split; [reflexivity|].
  simpl User.email.
  rewrite (get_user_after_update_token _ _ _ _ Hfound2). reflexivity.
Qed.


Lemma update_token_only_token (user : User.t) (token : option string)
    (db : Session) :
  only_tokens_differ db (repository_users.update_token user token db).
Proof.
  unfold only_tokens_differ. simpl. repeat split. rewrite map_map. apply map_ext. intros r.
  destruct (User.id r =? User.id user); reflexivity.
Qed.

(** X21.  [login] and [refresh_token] write nothing but refresh tokens:
    whatever they answer, the contacts table and its serial are as
    before, and so is every user row once the refresh-token column is
    left aside. *)
Theorem token_handlers_write_only_tokens
    (username password token : string) (db : Session) :
  only_tokens_differ
    db (snd (routes_auth.login auth_service username password db))
  /\ only_tokens_differ
       db (snd (routes_auth.refresh_token auth_service token db)).
Proof.
  assert (Hsame : only_tokens_differ db db) by (repeat split).
  split.
  - unfold routes_auth.login.
    destruct (repository_users.get_user_by_email username db) as [u|];
      [|exact Hsame].
    destruct (negb (User.confirmed u)); [exact Hsame|].
    destruct (negb (verify_password auth_service password (User.password u)));
      [exact Hsame|].
    cbn [snd]. apply update_token_only_token.
  - unfold routes_auth.refresh_token.
    destruct (decode_refresh_token auth_service token) as [email|s d|e];
      [|exact Hsame..].
    destruct (repository_users.get_user_by_email email db) as [u|];
      [|exact Hsame].
    destruct (routes_auth.token_differs (User.refresh_token u) token);
      cbn [snd]; apply update_token_only_token.
Qed.

End accounts.

(** X22.  [update_avatar] for the email of a stored user returns that
    user with the new avatar, stores it so that [get_user_by_email] finds
    it, and leaves the contacts alone; for an email no stored user has it
    raises and there is no result. *)
Theorem update_avatar_then_lookup
    (email url : string) (db : Session) :
  (email_free email db ->
   repository_users.update_avatar email url db = None)
  /\ (forall user,
        repository_users.get_user_by_email email db = Some user ->
        exists db',
          repository_users.update_avatar email url db
          = Some (User.set_avatar user (Some url), db')
          /\ repository_users.get_user_by_email email db'
             = Some (User.set_avatar user (Some url))
          /\ contacts db' = contacts db).
Proof.
  split.
  - intros H. apply email_free_lookup in H.
    unfold repository_users.update_avatar. rewrite H. reflexivity.
  - intros user Hu. unfold repository_users.update_avatar. rewrite Hu.
    eexists. split; [reflexivity|]. split; [|reflexivity].
    apply (lookup_after_column_write
             (fun r => User.set_avatar r (Some url)) email user db
             (fun r => eq_refl) Hu).
Qed.

(** X23.  Every task [request_email] adds is a confirmation email for a
    stored, unconfirmed user with the requested email, addressed to that
    email; at most one task is added. *)
Theorem request_email_tasks
    (email : string) (request : Request) (db : Session) :
  (List.length (snd (routes_auth.request_email email request db)) <= 1)%nat
  /\ forall t,
       In t (snd (routes_auth.request_email email request db)) ->
       exists u, In u (users db) /\ User.email u = email
                 /\ User.confirmed u = false
                 /\ t = routes_auth.send_email email (User.username u)
                                               (base_url request).
Proof.
  unfold routes_auth.request_email.
  destruct (repository_users.get_user_by_email email db) as [u|] eqn:E;
    simpl.
  - destruct (lookup_has_email email db u E) as [Hin He].
    destruct (User.confirmed u) eqn:Hc; simpl.
    + split; [lia | intros t []].
    + split; [lia|]. intros t [<-|[]]. exists u. rewrite He. auto.
  - split; [lia | intros t []].
Qed.

(* ================================================================== *)
(** * The contacts routes, end to end                                  *)
(* ================================================================== *)

Section contact_routes.

Variable auth_service : AuthService.


(** X25.  For an authenticated user and an id none of that user's
    contacts has, reading, updating and deleting over HTTP each answer
    404 "Contact not found" and leave the database as it was. *)
Theorem absent_contact_is_404
    (request : Request) (user : User.t) (contact_id : Z)
    (fields : ContactUpdate.t) (db : Session) :
  get_current_user auth_service request db = Return user ->
  absent_for contact_id user db ->
  let missing :=
    (HTTPException HTTP_404_NOT_FOUND "Contact not found" : outcome Contact.t,
     db) in
  routes_contacts.read_contact auth_service request contact_id db = missing
  /\ routes_contacts.update_contact auth_service request fields contact_id db
     = missing
  /\ routes_contacts.remove_contact auth_service request contact_id db
     = missing.
Proof.
  intros Hu Habs missing. subst missing.
  pose proof (absent_finds_nothing contact_id user db Habs) as Hnone.
  unfold routes_contacts.read_contact, routes_contacts.update_contact,
    routes_contacts.remove_contact, routes_contacts.current_user.
  rewrite Hu. cbn [bind].
  unfold repository_contacts.get_contact, repository_contacts.update_contact,
    repository_contacts.remove_contact.
  rewrite Hnone. repeat split.
Qed.

(** X26.  Whenever the current-user dependency does not yield a user,
    whether it raises an HTTP error or fails otherwise, none of the five
    guarded handlers returns a body and none writes: no contact is
    listed, read, created, updated or removed. *)
Theorem no_user_no_access
    (request : Request) (db : Session) (skip limit : nat) (i : Z)
    (new : ContactCreate.t) (fields : ContactUpdate.t) :
  (forall user, get_current_user auth_service request db <> Return user) ->
  refused db
    (routes_contacts.read_contacts auth_service request skip limit db)
  /\ refused db (routes_contacts.read_contact auth_service request i db)
  /\ refused db
       (routes_contacts.create_contact auth_service request new db)
  /\ refused db
       (routes_contacts.update_contact auth_service request fields i db)
  /\ refused db (routes_contacts.remove_contact auth_service request i db).
Proof.
  intros Hno. unfold refused.
  unfold routes_contacts.read_contacts, routes_contacts.read_contact,
    routes_contacts.create_contact, routes_contacts.update_contact,
    routes_contacts.remove_contact, routes_contacts.current_user.
  destruct (get_current_user auth_service request db) as [u|s d|e];
    [destruct (Hno u eq_refl) | |];
    cbn [bind fst snd]; repeat split; discriminate.
Qed.

End contact_routes.

(* ================================================================== *)
(** * Every write keeps the integrity of the state                     *)
(* ================================================================== *)

Lemma integrity_column_write (set : User.t -> User.t) (user : User.t)
    (db : Session) :
  (forall r, User.id (set r) = User.id r) ->
  integrity db ->
  integrity (mkSession (map (fun r => if User.id r =? User.id user
                                      then set r else r) (users db))
                       (contacts db) (contacts_id_seq db)).
Proof.
  intros Hset [Hs Hk Hu Ho].
  assert (Hids : map User.id
                   (map (fun r => if User.id r =? User.id user
                                  then set r else r) (users db))
                 = map User.id (users db)).
  { rewrite map_map. apply map_ext. intros r.
    destruct (User.id r =? User.id user); [apply Hset | reflexivity]. }
  split; simpl; try assumption.
  - unfold user_keys_unique; simpl. rewrite Hids. exact Hu.
  - unfold owners_stored, has_owner in *; simpl.
    eapply Forall_impl; [|exact Ho]. intros c (o & Hin & Hc).
    assert (In (User.id o) (map User.id (users db))) as Hid
      by (apply in_map, Hin).
    rewrite <- Hids in Hid. apply in_map_iff in Hid.
    destruct Hid as (o' & Ho' & Hin'). exists o'. split; [exact Hin'|].
    congruence.
Qed.

(** X27.  Every write of the two repositories keeps the integrity of the
    state (unique keys, serial ahead of the contact ids, every contact's
    owner stored): the contact calls of stored users, the token,
    confirmation and avatar updates, and the insertion of a user under a
    key no stored user has. *)
Theorem writes_keep_integrity (db : Session) :
  integrity db ->
  (forall user k, In user (users db) -> integrity (snd (run user k db)))
  /\ (forall user token,
        integrity (repository_users.update_token user token db))
  /\ (forall email db',
        repository_users.confirmed_email email db = Some db' ->
        integrity db')
  /\ (forall email url result,
        repository_users.update_avatar email url db = Some result ->
        integrity (snd result))
  /\ (forall body new_id,
        ~ In new_id (map User.id (users db)) ->
        integrity (snd (repository_users.create_user body new_id db))).
Proof.
  intros Hi. split; [|split; [|split; [|split]]].
  - intros user k Hin. apply integrity_run; assumption.
  - intros user token.
    apply (integrity_column_write
             (fun r => User.set_refresh_token r token) user db
             (fun r => eq_refl) Hi).
  - intros email db' H. unfold repository_users.confirmed_email in H.
    destruct (repository_users.get_user_by_email email db) as [user|];
      [|discriminate].
    injection H as <-.
    apply (integrity_column_write
             (fun r => User.set_confirmed r true) user db
             (fun r => eq_refl) Hi).
  - intros email url result H. unfold repository_users.update_avatar in H.
    destruct (repository_users.get_user_by_email email db) as [user|];
      [|discriminate].
    injection H as <-. cbn [snd].
    apply (integrity_column_write
             (fun r => User.set_avatar r (Some url)) user db
             (fun r => eq_refl) Hi).
  - intros body new_id Hfresh. destruct Hi as [Hs Hk Hu Ho].
    split; simpl; try assumption.
    + unfold user_keys_unique in *; simpl. rewrite map_app; simpl.
      apply NoDup_app; [exact Hu | constructor; [intros [] | constructor] |].
      intros x Hx [<-|[]]. exact (Hfresh Hx).
    + unfold owners_stored, has_owner in *; simpl.
      eapply Forall_impl; [|exact Ho]. intros c (o & Hin & Hc).
      exists o. split; [apply in_or_app; left; exact Hin | exact Hc].
Qed.

(* ================================================================== *)
(** * The further theorems at concrete inputs                          *)
(* ================================================================== *)

Lemma address_book_integrity : integrity address_book.
Proof.
  split.
  - repeat constructor.
  - repeat constructor. simpl. tauto.
  - repeat constructor; simpl; intuition discriminate.
  - repeat constructor. exists alice. split; [left|]; reflexivity.
Qed.

Lemma create_then_get_witness :
  let created :=
    repository_contacts.create_contact carl_payload alice two_contacts in
  let contact :=
    Contact.mk 3 (Some "Carl"%string) (Some "Roe"%string)
               (Some "c@x.com"%string) (Some "777"%string) None None
               (Some 1) in
  fst created = Ok contact
  /\ repository_contacts.get_contact (Contact.id contact) alice
       (snd created)
     = Some contact.
Proof.
  apply (create_then_get carl_payload alice two_contacts).
  - repeat constructor.
  - reflexivity.
  - reflexivity.
Defined.

Lemma remove_keeps_other_lookups_witness :
  repository_contacts.get_contact 1 alice
    (snd (repository_contacts.remove_contact 2 alice two_contacts))
  = repository_contacts.get_contact 1 alice two_contacts.
Proof.
  apply (remove_keeps_other_lookups 2 alice two_contacts 1 alice).
  discriminate.
Defined.

Lemma update_keeps_other_lookups_witness :
  repository_contacts.get_contact 2 alice
    (snd (repository_contacts.update_contact 1 blank_payload alice
                                             two_contacts))
  = repository_contacts.get_contact 2 alice two_contacts.
Proof.
  apply (update_keeps_other_lookups 1 blank_payload alice two_contacts 2
           alice).
  discriminate.
Defined.

Lemma update_last_wins_witness :
  let twice :=
    repository_contacts.update_contact 1 blank_payload alice
      (snd (repository_contacts.update_contact 1 renamed_payload alice
                                               two_contacts)) in
  let once :=
    repository_contacts.update_contact 1 blank_payload alice two_contacts in
  fst twice = fst once
  /\ users (snd twice) = users (snd once)
  /\ contacts_id_seq (snd twice) = contacts_id_seq (snd once)
  /\ Permutation (contacts (snd twice)) (contacts (snd once)).
Proof.
  apply (update_last_wins 1 renamed_payload blank_payload alice
           two_contacts).
  reflexivity.
Defined.

Lemma search_contacts_query_case_witness :
  repository_contacts.search_contacts address_book "AN" "lee" "A@X"
  = repository_contacts.search_contacts address_book "an" "LEE" "a@x".
Proof.
  apply (search_contacts_query_case address_book "AN" "lee" "A@X"
           "an" "LEE" "a@x"); reflexivity.
Defined.

Lemma upcoming_birthdays_empty_at_month_end_witness :
  repository_contacts.get_contacts_upcoming_birthdays (date.mk 2024 1 28)
                                                      address_book = [].
Proof.
  apply (upcoming_birthdays_empty_at_month_end (date.mk 2024 1 28)
           address_book).
  - vm_compute. intuition discriminate.
  - vm_compute. reflexivity.
Defined.

Lemma upcoming_birthdays_selects_witness :
  In ann (repository_contacts.get_contacts_upcoming_birthdays
            (date.mk 2024 1 23) address_book)
  <-> In ann (contacts address_book)
      /\ has_owner address_book ann
      /\ exists b, Contact.birthday ann = Some b
                   /\ date.month b = date.month (date.mk 2024 1 23)
                   /\ date.day (date.mk 2024 1 23) <= date.day b
                      <= date.day (date.mk 2024 1 23) + 7.
Proof.
  apply (upcoming_birthdays_selects (date.mk 2024 1 23) address_book ann).
  vm_compute. discriminate.
Defined.

Lemma carol_is_new : email_free (UserModel.email carol_body) address_book.
Proof.
  intros u [<-|[<-|[]]]; discriminate.
Qed.

Lemma address_book_emails_unique : emails_unique address_book.
Proof.
  repeat constructor; simpl; intuition discriminate.
Qed.

Lemma signup_keeps_emails_unique_witness :
  emails_unique
    (snd (fst (routes_auth.signup argon2 carol_body anonymous 3
                                  address_book))).
Proof.
  apply (signup_keeps_emails_unique argon2 carol_body anonymous 3
           address_book).
  exact address_book_emails_unique.
Defined.

Lemma signup_then_lookup_witness :
  let result :=
    routes_auth.signup argon2 carol_body anonymous 3 address_book in
  let new_user := signed_up argon2 carol_body 3 in
  let db' := snd (fst result) in
  fst (fst result)
  = Return (new_user,
            "User successfully created. Check your email for confirmation."%string)
  /\ snd result
     = [routes_auth.send_email (User.email new_user) (User.username new_user)
                               (base_url anonymous)]
  /\ repository_users.get_user_by_email (UserModel.email carol_body) db'
     = Some new_user
  /\ (forall email, email <> UserModel.email carol_body ->
        repository_users.get_user_by_email email db'
        = repository_users.get_user_by_email email address_book)
  /\ contacts db' = contacts address_book.
Proof.
  apply (signup_then_lookup argon2 carol_body anonymous 3 address_book).
  exact carol_is_new.
Defined.

Lemma signup_taken_email_witness :
  routes_auth.signup argon2
    (UserModel.mk "alice2" "alice@example.com" "pw") anonymous 3 address_book
  = (HTTPException HTTP_409_CONFLICT "Account already exists", address_book,
     []).
Proof.
  apply (signup_taken_email argon2
           (UserModel.mk "alice2" "alice@example.com" "pw") anonymous 3
           address_book alice).
  - left. reflexivity.
  - reflexivity.
Defined.

Lemma signup_then_login_refused_witness :
  let db' :=
    snd (fst (routes_auth.signup argon2 carol_body anonymous 3 address_book))
  in
  routes_auth.login round_trip_auth (UserModel.email carol_body) "s3cret" db'
  = (HTTPException HTTP_401_UNAUTHORIZED "Email not confirmed", db').
Proof.
  apply (signup_then_login_refused round_trip_auth argon2 carol_body
           anonymous 3 address_book "s3cret").
  exact carol_is_new.
Defined.

Lemma signup_confirm_login_witness :
  let db1 :=
    snd (fst (routes_auth.signup argon2 carol_body anonymous 3 address_book))
  in
  let db2 :=
    snd (routes_auth.confirmed_email email_of_token
                                     "confirm:carol@example.com" db1) in
  let logged :=
    routes_auth.login round_trip_auth (UserModel.email carol_body)
                      (UserModel.password carol_body) db2 in
  let refresh :=
    create_refresh_token round_trip_auth (UserModel.email carol_body) in
  fst logged
  = Return (TokenModel.mk
              (create_access_token round_trip_auth
                                   (UserModel.email carol_body))
              refresh "bearer")
  /\ option_map User.refresh_token
       (repository_users.get_user_by_email (UserModel.email carol_body)
                                           (snd logged))
     = Some (Some refresh).
Proof.
  apply (signup_confirm_login round_trip_auth argon2 email_of_token
           carol_body anonymous 3 address_book "confirm:carol@example.com").
  - exact carol_is_new.
  - reflexivity.
  - reflexivity.
Defined.



Lemma absent_contact_is_404_witness :
  let missing :=
    (HTTPException HTTP_404_NOT_FOUND "Contact not found" : outcome Contact.t,
     address_book) in
  routes_contacts.read_contact round_trip_auth as_bob 1 address_book
  = missing
  /\ routes_contacts.update_contact round_trip_auth as_bob blank_payload 1
                                    address_book
     = missing
  /\ routes_contacts.remove_contact round_trip_auth as_bob 1 address_book
     = missing.
Proof.
  apply (absent_contact_is_404 round_trip_auth as_bob bob 1 blank_payload
           address_book).
  - reflexivity.
  - intros c [<-|[]] Hu. simpl in Hu. discriminate.
Defined.

Lemma no_user_no_access_witness :
  refused address_book
    (routes_contacts.read_contacts demo_auth anonymous 0 100 address_book)
  /\ refused address_book
       (routes_contacts.read_contact demo_auth anonymous 1 address_book)
  /\ refused address_book
       (routes_contacts.create_contact demo_auth anonymous carl_payload
                                       address_book)
  /\ refused address_book
       (routes_contacts.update_contact demo_auth anonymous blank_payload 1
                                       address_book)
  /\ refused address_book
       (routes_contacts.remove_contact demo_auth anonymous 1 address_book).
Proof.
  apply (no_user_no_access demo_auth anonymous address_book 0 100 1
           carl_payload blank_payload).
  intros user. discriminate.
Defined.

Lemma writes_keep_integrity_witness :
  (forall user k, In user (users address_book) ->
                  integrity (snd (run user k address_book)))
  /\ (forall user token,
        integrity (repository_users.update_token user token address_book))
  /\ (forall email db',
        repository_users.confirmed_email email address_book = Some db' ->
        integrity db')
  /\ (forall email url result,
        repository_users.update_avatar email url address_book = Some result ->
        integrity (snd result))
  /\ (forall body new_id,
        ~ In new_id (map User.id (users address_book)) ->
        integrity (snd (repository_users.create_user body new_id
                                                     address_book))).
Proof.
  apply (writes_keep_integrity address_book).
  exact address_book_integrity.
Defined.
